(** * Regression comparator: normaliser, tree comparator and orchestrator

    A shallow embedding of [src/modules/comparison.py]:
    - [clean_xml_string], the text normaliser (lines 44-75);
    - [strip_namespace], [parse_xml], [compare_xml] (lines 82-138);
    - the loop of [process_comparison] (lines 153-230);
    and of [clean_xml_content] and [read_all_input_files] of
    [src/modules/test_input.py].

    Python strings are lists of Unicode code points, bytes are numbers
    below 256, dictionaries are finite maps, exceptions are values of
    [result].  The tables of the Unicode database, the XML parser and
    the encoding of the standard output are not part of the repository:
    they are the fields of [Library].

    The comparator is given twice: [recurse] and [compare_xml] on trees
    of elements, where they are total, and [recurse_node] and
    [compare_xml_node] on the trees the parser returns, which hold
    comments and processing instructions as well and on which the
    comparator can raise.  The two agree on trees of elements
    ([recurse_node_of_element]). *)

From Stdlib Require Import NArith ZArith Lia Ascii String DecimalString.
From stdpp Require Import base tactics option numbers list gmap.

Set Default Proof Using "Type".
Set Warnings "-clear-no-such-hyp".

(** ** Strings and exceptions *)

(** A Python [str]: the sequence of its code points. *)
Abbreviation pystr := (list N).

(** An ASCII literal as a Python string. *)
Fixpoint py (s : string) : pystr :=
  match s with
  | EmptyString => []
  | String a s' => N_of_ascii a :: py s'
  end.
Arguments py _%_string.

(** The exceptions the modules can see, each with its text.
    [UnicodeEncodeError] and [UnicodeDecodeError] are subclasses of
    [ValueError] in Python: [except ValueError] catches all three, and
    neither [AttributeError] nor [FileNotFoundError]. *)
Inductive exn :=
  | UnicodeEncodeError (msg : pystr)
  | UnicodeDecodeError (msg : pystr)
  | ValueError (msg : pystr)
  | AttributeError (msg : pystr)
  | FileNotFoundError (msg : pystr).

(** [str(e)]. *)
Definition str_exn (e : exn) : pystr :=
  match e with
  | UnicodeEncodeError msg | UnicodeDecodeError msg | ValueError msg
  | AttributeError msg | FileNotFoundError msg => msg
  end.

(** [isinstance(e, ValueError)]: what [except ValueError] catches. *)
Definition is_ValueError (e : exn) : bool :=
  match e with
  | UnicodeEncodeError _ | UnicodeDecodeError _ | ValueError _ => true
  | AttributeError _ | FileNotFoundError _ => false
  end.

Inductive result (A : Type) :=
  | Ok (a : A)
  | Raise (e : exn).
Arguments Ok {A} a.
Arguments Raise {A} e.

(** Sequencing: an exception ends the computation ([x ← r; k]). *)
#[global] Instance result_bind : MBind result := λ A B k r,
  match r with
  | Ok a => k a
  | Raise e => Raise e
  end.

#[global] Instance result_fmap : FMap result := λ A B f r,
  match r with
  | Ok a => Ok (f a)
  | Raise e => Raise e
  end.

(** ** Characters *)

Section Characters.
Local Open Scope N_scope.

Definition c_tab : N := 9.
Definition c_newline : N := 10.
Definition c_formfeed : N := 12.
Definition c_space : N := 32.
Definition c_quote : N := 34.
Definition c_hash : N := 35.
Definition c_amp : N := 38.
Definition c_comma : N := 44.
Definition c_semicolon : N := 59.
Definition c_lt : N := 60.
Definition c_equals : N := 61.
Definition c_backslash : N := 92.
Definition c_rbrace : N := 125.

Definition in_range (lo hi c : N) : bool := (lo <=? c) && (c <=? hi).

Definition is_digit (c : N) : bool := in_range 48 57 c.
Definition is_octal (c : N) : bool := in_range 48 55 c.
Definition is_hex (c : N) : bool :=
  is_digit c || in_range 65 70 c || in_range 97 102 c.
Definition ascii_alnum (c : N) : bool :=
  is_digit c || in_range 65 90 c || in_range 97 122 c.

Definition hex_val (c : N) : N :=
  if is_digit c then c - 48
  else if in_range 65 70 c then c - 55
  else c - 87.

(** [str.isspace] on one code point: the characters [str.strip]
    removes. *)
Definition isspace (c : N) : bool :=
  in_range 9 13 c || in_range 28 32 c || (c =? 0x85) || (c =? 0xA0)
  || (c =? 0x1680) || in_range 0x2000 0x200A c || (c =? 0x2028)
  || (c =? 0x2029) || (c =? 0x202F) || (c =? 0x205F) || (c =? 0x3000).
End Characters.

(** ** Parsed trees

    What the comparator reads of an [lxml] element: its qualified tag
    ([{uri}local]), the text before its first child, its attributes, its
    children in document order, and the text that follows its end tag
    ([tail], which belongs to the parent's content).  [Element] is a
    tree all of whose nodes are elements, whose tag is a string, as the
    annotations of [strip_namespace] and [compare_xml] say. *)
#[warnings="-register-all"]
Inductive Element := mkElement {
  tag : pystr;
  text : option pystr;
  attrib : gmap pystr pystr;
  children : list Element;
  tail : option pystr;
}.

(** The trees [lxml] returns hold other nodes as well: iterating over
    an element yields its comments and processing instructions (and
    its entity references, when the parser keeps them) among its
    children.  Such a node has a text and a tail and no children, and
    its [tag] is no string: it is the function that makes such nodes
    ([etree.Comment], [etree.ProcessingInstruction], [etree.Entity]). *)
Inductive special := Comment | ProcessingInstruction | Entity.

#[warnings="-register-all"]
Inductive Node :=
  | ElementNode (tag : pystr) (text : option pystr)
      (attrib : gmap pystr pystr) (children : list Node)
      (tail : option pystr)
  | SpecialNode (kind : special) (text tail : option pystr).

(** A tree of elements as a tree of nodes. *)
Fixpoint of_element (e : Element) : Node :=
  ElementNode (tag e) (text e) (attrib e) (map of_element (children e))
    (tail e).

(** ** What the module imports

    [uni_alnum] is [str.isalnum] on one code point above ASCII,
    [ucd_lookup] the name table behind the escape [\N{...}], [html5] the
    table [html.entities.html5], [fromstring] is [lxml.etree.fromstring]
    on the bytes it is given (the root node, or the text of the
    exception it raised), [repr_attrib] the [repr] of an attribute
    mapping, [encode_error_text] and [decode_error_text] the texts of
    the exceptions that encoding a string and decoding bytes raise,
    [no_attribute_text] the text of the [AttributeError] raised by
    [tag.split] on a tag that is a function.  [stdout_encodes] says
    which characters the encoding and the error handler of
    [sys.stdout] can write, [stdout_error_text] is the text of the
    [UnicodeEncodeError] it raises for a text it cannot write.
    No white-space character is alphanumeric. *)
Class Library := {
  uni_alnum : N → bool;
  ucd_lookup : list N → option N;
  html5 : pystr → option pystr;
  fromstring : list N → pystr + Node;
  repr_attrib : gmap pystr pystr → pystr;
  encode_error_text : pystr → pystr;
  decode_error_text : list N → pystr;
  no_attribute_text : pystr;
  stdout_encodes : N → bool;
  stdout_error_text : pystr → pystr;
  uni_alnum_space : ∀ c, isspace c = true → uni_alnum c = false;
}.

(** [print(s)]: [s] and a newline are written to [sys.stdout], which
    raises [UnicodeEncodeError] at a character it cannot encode. *)
Definition print `{Library} (s : pystr) : result unit :=
  if forallb stdout_encodes (s ++ [c_newline]) then Ok tt
  else Raise (UnicodeEncodeError (stdout_error_text s)).

(** ** The normaliser, step 1: [raw.encode("utf-8").decode("unicode_escape")] *)

Section Escapes.
Context `{Library}.
Local Open Scope N_scope.

(** The UTF-8 bytes of one code point; surrogates have none. *)
Definition utf8_char (c : N) : option (list N) :=
  if c <? 0x80 then Some [c]
  else if c <? 0x800 then Some [0xC0 + c / 64; 0x80 + c mod 64]
  else if in_range 0xD800 0xDFFF c then None
  else if c <? 0x10000 then
    Some [0xE0 + c / 4096; 0x80 + (c / 64) mod 64; 0x80 + c mod 64]
  else
    Some [0xF0 + c / 262144; 0x80 + (c / 4096) mod 64;
          0x80 + (c / 64) mod 64; 0x80 + c mod 64].

Fixpoint utf8_bytes (s : pystr) : option (list N) :=
  match s with
  | [] => Some []
  | c :: s' => b ← utf8_char c; bs ← utf8_bytes s'; Some (b ++ bs)
  end.

(** [s.encode("utf-8")]. *)
Definition utf8_encode (s : pystr) : result (list N) :=
  match utf8_bytes s with
  | Some b => Ok b
  | None => Raise (UnicodeEncodeError (encode_error_text s))
  end.

(** Exactly [count] hexadecimal digits ([\xXX], [\uXXXX],
    [\UXXXXXXXX]): fewer, another byte among them, or a value above
    the last code point, is an error. *)
Fixpoint hex_escape (count : nat) (s : list N) (ch : N) : option N :=
  match count with
  | O => if ch <=? 0x10FFFF then Some ch else None
  | S k =>
      match s with
      | c :: s' =>
          if is_hex c then hex_escape k s' (ch * 16 + hex_val c) else None
      | [] => None
      end
  end.

(** Up to two more octal digits after the first one, [c]. *)
Definition octal_escape (c : N) (s : list N) : pystr * nat :=
  match s with
  | d1 :: d2 :: _ =>
      if is_octal d1 then
        if is_octal d2 then
          ([((c - 48) * 8 + (d1 - 48)) * 8 + (d2 - 48)], 3%nat)
        else ([(c - 48) * 8 + (d1 - 48)], 2%nat)
      else ([c - 48], 1%nat)
  | [d1] =>
      if is_octal d1 then ([(c - 48) * 8 + (d1 - 48)], 2%nat)
      else ([c - 48], 1%nat)
  | [] => ([c - 48], 1%nat)
  end.

(** The name between [{] and [}], and whether the [}] was found. *)
Fixpoint name_upto_brace (s : list N) : list N * bool :=
  match s with
  | [] => ([], false)
  | c :: s' =>
      if c =? c_rbrace then ([], true)
      else let '(n, closed) := name_upto_brace s' in (c :: n, closed)
  end.

(** The escape that starts after a backslash: the characters it
    stands for and the number of bytes it takes after the backslash.
    A backslash before any other byte stands for itself. *)
Definition escape (s : list N) : option (pystr * nat) :=
  match s with
  | [] => None
  | c :: s' =>
      if c =? c_newline then Some ([], 1%nat)
      else if c =? c_backslash then Some ([c_backslash], 1%nat)
      else if c =? 39 then Some ([39], 1%nat)
      else if c =? c_quote then Some ([c_quote], 1%nat)
      else if c =? 98 then Some ([8], 1%nat)
      else if c =? 102 then Some ([12], 1%nat)
      else if c =? 116 then Some ([9], 1%nat)
      else if c =? 110 then Some ([10], 1%nat)
      else if c =? 114 then Some ([13], 1%nat)
      else if c =? 118 then Some ([11], 1%nat)
      else if c =? 97 then Some ([7], 1%nat)
      else if is_octal c then Some (octal_escape c s')
      else if c =? 120 then ch ← hex_escape 2 s' 0; Some ([ch], 3%nat)
      else if c =? 117 then ch ← hex_escape 4 s' 0; Some ([ch], 5%nat)
      else if c =? 85 then ch ← hex_escape 8 s' 0; Some ([ch], 9%nat)
      else if c =? 78 then
        match s' with
        | b :: s'' =>
            if b =? 123 then
              match name_upto_brace s'' with
              | (c1 :: n, true) =>
                  ch ← ucd_lookup (c1 :: n);
                  Some ([ch], (3 + length (c1 :: n))%nat)
              | _ => None
              end
            else None
        | [] => None
        end
      else Some ([c_backslash; c], 1%nat)
  end.

(** The decoder's loop: a byte stands for the character of its value,
    a backslash starts an escape.  [skip] counts the bytes of the
    current escape still to pass over. *)
Fixpoint unicode_escape_from (skip : nat) (s : list N) : option pystr :=
  match s with
  | [] => Some []
  | c :: s' =>
      match skip with
      | S k => unicode_escape_from k s'
      | O =>
          if c =? c_backslash then
            e ← escape s';
            t ← unicode_escape_from (snd e) s';
            Some (fst e ++ t)
          else
            t ← unicode_escape_from 0 s';
            Some (c :: t)
      end
  end.

(** [b.decode("unicode_escape")]. *)
Definition unicode_escape (b : list N) : result pystr :=
  match unicode_escape_from 0 b with
  | Some s => Ok s
  | None => Raise (UnicodeDecodeError (decode_error_text b))
  end.

Definition unescape_backslashes (raw : pystr) : result pystr :=
  b ← utf8_encode raw; unicode_escape b.
End Escapes.

(** ** Helpers on strings: [startswith], [find], [replace], [strip] *)

Fixpoint startswith (s prefix : pystr) : bool :=
  match prefix, s with
  | [], _ => true
  | p :: prefix', c :: s' => (c =? p)%N && startswith s' prefix'
  | _ :: _, [] => false
  end.

(** [find_from sub s i]: the first place of [sub] in [s], counted from
    [i], the index of the head of [s] in the whole string. *)
Fixpoint find_from (sub s : pystr) (i : nat) : option nat :=
  if startswith s sub then Some i
  else
    match s with
    | [] => None
    | _ :: s' => find_from sub s' (S i)
    end.

(** [text.find(sub, start)], with [None] for Python's [-1]. *)
Definition find (text sub : pystr) (start : nat) : option nat :=
  find_from sub (drop start text) start.

(** [s.replace(old, new)] for a non-empty [old]: occurrences are taken
    from the left and do not overlap.  [skip] counts the characters of
    the current occurrence still to pass over. *)
Fixpoint replace_from (old new : pystr) (skip : nat) (s : pystr) : pystr :=
  match s with
  | [] => []
  | c :: s' =>
      match skip with
      | S k => replace_from old new k s'
      | O =>
          if startswith s old
          then new ++ replace_from old new (length old - 1) s'
          else c :: replace_from old new 0 s'
      end
  end.

Definition replace (s old new : pystr) : pystr := replace_from old new 0 s.

Fixpoint lstrip (s : pystr) : pystr :=
  match s with
  | c :: s' => if isspace c then lstrip s' else s
  | [] => []
  end.

Definition rstrip (s : pystr) : pystr := reverse (lstrip (reverse s)).

Definition strip (s : pystr) : pystr := rstrip (lstrip s).

(** The longest prefix whose characters satisfy [p], and the rest. *)
Fixpoint span (p : N → bool) (s : pystr) : pystr * pystr :=
  match s with
  | c :: s' =>
      if p c then let '(a, b) := span p s' in (c :: a, b) else ([], s)
  | [] => ([], [])
  end.

(** [str(n)] for a natural number. *)
Definition str_nat (n : nat) : pystr :=
  py (NilEmpty.string_of_uint (Nat.to_uint n)).

(** ** The normaliser, step 2: [html.unescape] *)

Section Html.
Context `{Library}.
Local Open Scope N_scope.

(** [html._invalid_charrefs]. *)
Definition invalid_charrefs : list (N * N) :=
  [(0x0, 0xfffd); (0xd, 0xd); (0x80, 0x20ac); (0x81, 0x81);
   (0x82, 0x201a); (0x83, 0x192); (0x84, 0x201e); (0x85, 0x2026);
   (0x86, 0x2020); (0x87, 0x2021); (0x88, 0x2c6); (0x89, 0x2030);
   (0x8a, 0x160); (0x8b, 0x2039); (0x8c, 0x152); (0x8d, 0x8d);
   (0x8e, 0x17d); (0x8f, 0x8f); (0x90, 0x90); (0x91, 0x2018);
   (0x92, 0x2019); (0x93, 0x201c); (0x94, 0x201d); (0x95, 0x2022);
   (0x96, 0x2013); (0x97, 0x2014); (0x98, 0x2dc); (0x99, 0x2122);
   (0x9a, 0x161); (0x9b, 0x203a); (0x9c, 0x153); (0x9d, 0x9d);
   (0x9e, 0x17e); (0x9f, 0x178)].

Fixpoint assoc (k : N) (l : list (N * N)) : option N :=
  match l with
  | (k', v) :: l' => if k =? k' then Some v else assoc k l'
  | [] => None
  end.

(** Membership in [html._invalid_codepoints]. *)
Definition invalid_codepoint (c : N) : bool :=
  in_range 0x1 0x8 c || (c =? 0xb) || in_range 0xe 0x1f c
  || in_range 0x7f 0x9f c || in_range 0xfdd0 0xfdef c
  || ((c <=? 0x10ffff)
      && ((c mod 0x10000 =? 0xfffe) || (c mod 0x10000 =? 0xffff))).

(** [int(digits, base)]. *)
Definition int_of (base : N) (digits : pystr) : N :=
  fold_left (λ n d, n * base + hex_val d) digits 0.

Definition numeric_charref (num : N) : pystr :=
  match assoc num invalid_charrefs with
  | Some c => [c]
  | None =>
      if in_range 0xD800 0xDFFF num || (0x10FFFF <? num) then [0xFFFD]
      else if invalid_codepoint num then []
      else [num]
  end.

(** The loop of [_replace_charref] over the prefixes [s[:x]], from
    the longest down to two characters. *)
Fixpoint named_charref (x : nat) (s : pystr) : pystr :=
  match x with
  | S x' =>
      if (x <=? 1)%nat then c_amp :: s
      else
        match html5 (take x s) with
        | Some v => v ++ drop x s
        | None => named_charref x' s
        end
  | O => c_amp :: s
  end.

Inductive charref :=
  | Decimal (digits : pystr) (semi : bool)
  | Hexadecimal (x : N) (digits : pystr) (semi : bool)
  | Named (name : pystr) (semi : bool).

Definition is_name_char (c : N) : bool :=
  negb ((c =? c_tab) || (c =? c_newline) || (c =? c_formfeed)
        || (c =? c_space) || (c =? c_lt) || (c =? c_amp)
        || (c =? c_hash) || (c =? c_semicolon)).

(** At most [n] leading characters that satisfy [p]. *)
Fixpoint span_upto (n : nat) (p : N → bool) (s : pystr) : pystr * pystr :=
  match n, s with
  | S n', c :: s' =>
      if p c then let '(a, b) := span_upto n' p s' in (c :: a, b)
      else ([], s)
  | _, _ => ([], s)
  end.

Definition semi_follows (s : pystr) : bool :=
  match s with
  | c :: _ => c =? c_semicolon
  | [] => false
  end.

(** The pattern [_charref] tried after a [&]: the three alternatives
    in their order, each repetition as long as it can be. *)
Definition match_charref (s : pystr) : option charref :=
  match s with
  | c :: s' =>
      if c =? c_hash then
        match span is_digit s' with
        | ((_ :: _) as digits, r) => Some (Decimal digits (semi_follows r))
        | ([], _) =>
            match s' with
            | x :: s'' =>
                if (x =? 120) || (x =? 88) then
                  match span is_hex s'' with
                  | ((_ :: _) as digits, r) =>
                      Some (Hexadecimal x digits (semi_follows r))
                  | ([], _) => None
                  end
                else None
            | [] => None
            end
        end
      else
        match span_upto 32 is_name_char s with
        | ((_ :: _) as name, r) => Some (Named name (semi_follows r))
        | ([], _) => None
        end
  | [] => None
  end.

Definition with_semi (semi : bool) (s : pystr) : pystr :=
  if semi then s ++ [c_semicolon] else s.

(** The text of group 1. *)
Definition charref_text (r : charref) : pystr :=
  match r with
  | Decimal digits semi => c_hash :: with_semi semi digits
  | Hexadecimal x digits semi => c_hash :: x :: with_semi semi digits
  | Named name semi => with_semi semi name
  end.

(** [_replace_charref].  CPython (3.11) refuses to convert more than
    4300 decimal digits: [int] raises [ValueError]. *)
Definition replace_charref (r : charref) : result pystr :=
  match r with
  | Decimal digits _ =>
      if (4300 <? length digits)%nat then
        Raise (ValueError
          (py "Exceeds the limit (4300 digits) for integer string conversion: value has "
           ++ str_nat (length digits)
           ++ py " digits; use sys.set_int_max_str_digits() to increase the limit"))
      else Ok (numeric_charref (int_of 10 digits))
  | Hexadecimal _ digits _ => Ok (numeric_charref (int_of 16 digits))
  | Named name semi =>
      let s := with_semi semi name in
      match html5 s with
      | Some v => Ok v
      | None => Ok (named_charref (length s - 1) s)
      end
  end.

(** [_charref.sub(_replace_charref, s)]. *)
Fixpoint charref_sub (skip : nat) (s : pystr) : result pystr :=
  match s with
  | [] => Ok []
  | c :: s' =>
      match skip with
      | S k => charref_sub k s'
      | O =>
          if c =? c_amp then
            match match_charref s' with
            | Some r =>
                v ← replace_charref r;
                t ← charref_sub (length (charref_text r)) s';
                Ok (v ++ t)
            | None => t ← charref_sub 0 s'; Ok (c :: t)
            end
          else t ← charref_sub 0 s'; Ok (c :: t)
      end
  end.

Definition html_unescape (s : pystr) : result pystr :=
  if bool_decide (c_amp ∈ s) then charref_sub 0 s else Ok s.
End Html.

(** ** The normaliser, steps 3 to 6 *)

Section Normaliser.
Context `{Library}.
Local Open Scope N_scope.

(** [\w]: alphanumeric or underscore. *)
Definition is_word (c : N) : bool :=
  (if c <? 128 then ascii_alnum c else uni_alnum c) || (c =? 95).

(** [[\w:\-\.\/]]. *)
Definition is_value (c : N) : bool :=
  is_word c || (c =? 58) || (c =? 45) || (c =? 46) || (c =? 47).

(** The pattern [(\w+)=([\w:\-\.\/]+)] tried at the head of [s]: the
    two groups.  No word character is [=], so giving back characters
    of the first group never leads to a match, and the second group
    ends the pattern: each is the longest run. *)
Definition match_attr (s : pystr) : option (pystr * pystr) :=
  match span is_word s with
  | ((_ :: _) as name, e :: r) =>
      if e =? c_equals then
        match span is_value r with
        | ((_ :: _) as value, _) => Some (name, value)
        | ([], _) => None
        end
      else None
  | _ => None
  end.

(** [re.sub(r'(\w+)=([\w:\-\.\/]+)', r'\1="\2"', text)]. *)
Fixpoint quote_attrs_from (skip : nat) (s : pystr) : pystr :=
  match s with
  | [] => []
  | c :: s' =>
      match skip with
      | S k => quote_attrs_from k s'
      | O =>
          match match_attr s with
          | Some (name, value) =>
              name ++ [c_equals; c_quote] ++ value ++ [c_quote]
              ++ quote_attrs_from (length name + length value) s'
          | None => c :: quote_attrs_from 0 s'
          end
      end
  end.

Definition quote_attrs (text : pystr) : pystr := quote_attrs_from 0 text.

(** Lines 64-69: keep the declaration and drop what stands between
    its end and the next [<]. *)
Definition trim_preamble (text : pystr) : pystr :=
  match find text (py "?>") 0 with
  | Some declaration_end =>
      let xml_declaration := take (declaration_end + 2) text in
      match find text (py "<") (declaration_end + 2) with
      | Some content_start => xml_declaration ++ drop content_start text
      | None => text
      end
  | None => text
  end.

(** Lines 71-73: drop what stands before the first [<]. *)
Definition from_first_lt (text : pystr) : pystr :=
  match find text (py "<") 0 with
  | Some start => drop start text
  | None => text
  end.

Definition isolate_xml (text : pystr) : pystr :=
  from_first_lt (trim_preamble text).
End Normaliser.

(** ** [clean_xml_string] (lines 44-75) *)

(** A value read from JSON, as far as the module tells values apart:
    [PyOther] is any value that is neither of the others (a float, a
    list, an object), with the text [str()] gives for it. *)
Inductive pyvalue :=
  | PyNone
  | PyBool (b : bool)
  | PyInt (z : Z)
  | PyStr (s : pystr)
  | PyOther (shown : pystr).

Section Clean.
Context `{Library}.

Definition clean_xml_string (raw : pyvalue) : result pystr :=
  match raw with
  | PyStr raw =>
      (* Step 1 *)
      text ← unescape_backslashes raw;
      (* Step 2 *)
      text ← html_unescape text;
      (* Step 3 *)
      let text := replace text [c_comma] [] in
      let text := replace (replace text [c_quote; c_quote] [c_quote])
                          [c_quote] [] in
      (* Step 4 *)
      let text := quote_attrs text in
      (* Step 5 *)
      let text := strip text in
      Ok (isolate_xml text)
  | _ => Ok []
  end.
End Clean.

(** Steps 3 to 6 of [clean_xml_string], which cannot fail. *)
Definition steps_3_to_6 `{Library} (text : pystr) : pystr :=
  let text := replace text [c_comma] [] in
  let text := replace (replace text [c_quote; c_quote] [c_quote])
                      [c_quote] [] in
  isolate_xml (strip (quote_attrs text)).

(** A character the pattern of step 4 cannot run over: neither a word
    character, nor one of [: - . /], nor [=]. *)
Definition is_barrier `{Library} (c : N) : bool :=
  negb (is_value c) && negb (c =? c_equals)%N.

(** The declaration of [text], if it has one, is directly followed by
    [<] or by no [<] at all: lines 64-69 have nothing to remove. *)
Definition declaration_trimmed (text : pystr) : Prop :=
  match find text (py "?>") 0 with
  | Some declaration_end =>
      match find text (py "<") (declaration_end + 2) with
      | Some content_start => content_start = declaration_end + 2
      | None => True
      end
  | None => True
  end.

(** ** The comparator (lines 80-138) *)

Definition IGNORED_TAGS : gset pystr :=
  {[ py "BizMsgIdr"; py "CreDt"; py "MsgId" ]}.

(** [s.split(sep)] for a separator of one character. *)
Fixpoint split (sep : N) (s : pystr) : list pystr :=
  match s with
  | [] => [[]]
  | c :: s' =>
      if (c =? sep)%N then [] :: split sep s'
      else
        match split sep s' with
        | piece :: pieces => (c :: piece) :: pieces
        | [] => [[c]]
        end
  end.

(** [tag.split('}')[-1]]. *)
Definition strip_namespace (tag : pystr) : pystr :=
  default [] (last (split c_rbrace tag)).

(** The four messages of [recurse], each with the values its f-string
    prints. *)
Inductive DiffEntry :=
  | TagMismatch (path tag_a_local tag_b_local : pystr)
  | ValueMismatch (current_path text_a text_b : pystr)
  | AttributeMismatch (current_path : pystr) (attrib_a attrib_b : gmap pystr pystr)
  | ChildCountMismatch (current_path : pystr) (len_a len_b : nat).

(** [recurse] (lines 103-135) on two trees of elements; [diffs] is the
    list the closure appends to, passed in and returned.  On the
    trees the parser returns it is [recurse_node] below. *)
Fixpoint recurse (elem_a elem_b : Element) (path : pystr)
    (diffs : list DiffEntry) {struct elem_a} : list DiffEntry :=
  let tag_a_local := strip_namespace (tag elem_a) in
  let tag_b_local := strip_namespace (tag elem_b) in
  let current_path := path ++ py "/" ++ tag_a_local in
  (* Compare tag names *)
  if bool_decide (tag elem_a ≠ tag elem_b) then
    diffs ++ [TagMismatch path tag_a_local tag_b_local]
  (* Skip ignored tags entirely *)
  else if bool_decide (tag_a_local ∈ IGNORED_TAGS) then diffs
  else
    (* Compare text content *)
    let text_a := strip (default [] (text elem_a)) in
    let text_b := strip (default [] (text elem_b)) in
    let diffs :=
      if bool_decide (text_a ≠ text_b)
      then diffs ++ [ValueMismatch current_path text_a text_b]
      else diffs in
    (* Compare attributes *)
    let diffs :=
      if bool_decide (attrib elem_a ≠ attrib elem_b)
      then diffs ++ [AttributeMismatch current_path (attrib elem_a) (attrib elem_b)]
      else diffs in
    (* Compare number of children *)
    let children_a := children elem_a in
    let children_b := children elem_b in
    let diffs :=
      if bool_decide (length children_a ≠ length children_b)
      then diffs ++ [ChildCountMismatch current_path
                       (length children_a) (length children_b)]
      else diffs in
    (* Recurse into child elements *)
    (fix for_zip (children_a children_b : list Element)
         (diffs : list DiffEntry) {struct children_a} : list DiffEntry :=
       match children_a, children_b with
       | a_child :: children_a, b_child :: children_b =>
           for_zip children_a children_b
             (recurse a_child b_child current_path diffs)
       | _, _ => diffs
       end) children_a children_b diffs.

Definition compare_xml (xml_a xml_b : Element) : list DiffEntry :=
  recurse xml_a xml_b [] [].

(** The loop of lines 134-135 on its own. *)
Fixpoint recurse_children (children_a children_b : list Element)
    (current_path : pystr) (diffs : list DiffEntry) : list DiffEntry :=
  match children_a, children_b with
  | a_child :: children_a, b_child :: children_b =>
      recurse_children children_a children_b current_path
        (recurse a_child b_child current_path diffs)
  | _, _ => diffs
  end.

(** [recurse] (lines 103-135) on the trees [lxml] returns.  On two
    elements it is [recurse] above.  On a node that is no element the
    first statement of the body raises: [strip_namespace(elem_a.tag)]
    (line 104), or [strip_namespace(elem_b.tag)] (line 105) when only
    the second node is none, calls [split] on a function. *)
Fixpoint recurse_node `{Library} (elem_a elem_b : Node) (path : pystr)
    (diffs : list DiffEntry) {struct elem_a} : result (list DiffEntry) :=
  match elem_a, elem_b with
  | ElementNode tag_a text_a attrib_a children_a _,
    ElementNode tag_b text_b attrib_b children_b _ =>
      let tag_a_local := strip_namespace tag_a in
      let tag_b_local := strip_namespace tag_b in
      let current_path := path ++ py "/" ++ tag_a_local in
      (* Compare tag names *)
      if bool_decide (tag_a ≠ tag_b) then
        Ok (diffs ++ [TagMismatch path tag_a_local tag_b_local])
      (* Skip ignored tags entirely *)
      else if bool_decide (tag_a_local ∈ IGNORED_TAGS) then Ok diffs
      else
        (* Compare text content *)
        let text_a := strip (default [] text_a) in
        let text_b := strip (default [] text_b) in
        let diffs :=
          if bool_decide (text_a ≠ text_b)
          then diffs ++ [ValueMismatch current_path text_a text_b]
          else diffs in
        (* Compare attributes *)
        let diffs :=
          if bool_decide (attrib_a ≠ attrib_b)
          then diffs ++ [AttributeMismatch current_path attrib_a attrib_b]
          else diffs in
        (* Compare number of children *)
        let diffs :=
          if bool_decide (length children_a ≠ length children_b)
          then diffs ++ [ChildCountMismatch current_path
                           (length children_a) (length children_b)]
          else diffs in
        (* Recurse into child elements *)
        (fix for_zip (children_a children_b : list Node)
             (diffs : list DiffEntry) {struct children_a}
             : result (list DiffEntry) :=
           match children_a, children_b with
           | a_child :: children_a, b_child :: children_b =>
               diffs ← recurse_node a_child b_child current_path diffs;
               for_zip children_a children_b diffs
           | _, _ => Ok diffs
           end) children_a children_b diffs
  | _, _ => Raise (AttributeError no_attribute_text)
  end.

(** [compare_xml] on the trees [parse_xml] returns. *)
Definition compare_xml_node `{Library} (xml_a xml_b : Node)
    : result (list DiffEntry) :=
  recurse_node xml_a xml_b [] [].

(** The loop of lines 134-135 on its own. *)
Fixpoint recurse_children_node `{Library} (children_a children_b : list Node)
    (current_path : pystr) (diffs : list DiffEntry)
    : result (list DiffEntry) :=
  match children_a, children_b with
  | a_child :: children_a, b_child :: children_b =>
      diffs ← recurse_node a_child b_child current_path diffs;
      recurse_children_node children_a children_b current_path diffs
  | _, _ => Ok diffs
  end.

(** The text of a message, as the f-strings of lines 110-131 build it. *)
Definition render `{Library} (d : DiffEntry) : pystr :=
  match d with
  | TagMismatch path tag_a_local tag_b_local =>
      py "Tag mismatch at " ++ path ++ py ": '" ++ tag_a_local
      ++ py "' != '" ++ tag_b_local ++ py "'"
  | ValueMismatch current_path text_a text_b =>
      py "Value mismatch at " ++ current_path ++ py ": '" ++ text_a
      ++ py "' != '" ++ text_b ++ py "'"
  | AttributeMismatch current_path attrib_a attrib_b =>
      py "Attribute mismatch at " ++ current_path ++ py ": "
      ++ repr_attrib attrib_a ++ py " != " ++ repr_attrib attrib_b
  | ChildCountMismatch current_path len_a len_b =>
      py "Child count mismatch at " ++ current_path ++ py ": "
      ++ str_nat len_a ++ py " != " ++ str_nat len_b
  end.

(** ** The orchestrator (lines 87-93 and 153-230) *)

(** [str(v)], which is also what an f-string prints for [v]. *)
Definition py_str (v : pyvalue) : pystr :=
  match v with
  | PyNone => py "None"
  | PyBool true => py "True"
  | PyBool false => py "False"
  | PyInt z => py (NilEmpty.string_of_int (Z.to_int z))
  | PyStr s => s
  | PyOther shown => shown
  end.

(** [d.get(key, default)] on a JSON object. *)
Definition dict_get (d : gmap pystr pyvalue) (key : pystr)
    (default : pyvalue) : pyvalue :=
  match d !! key with
  | Some v => v
  | None => default
  end.

Definition warning_sign : pystr := [0x26A0; 0xFE0F]%N.

Section Orchestrator.
Context `{Library}.

(** [parse_xml] (lines 87-93): every exception of the parser, and of
    the encoding before it, becomes a [ValueError]. *)
Definition parse_xml (xml_str : pystr) : result Node :=
  let failed (e : pystr) :=
    let snippet := replace (take 100 xml_str) [c_newline] [c_space] in
    Raise (ValueError (warning_sign ++ py " Failed to parse XML: " ++ e
                       ++ [c_newline] ++ py "  Snippet: " ++ snippet
                       ++ py "...")) in
  match utf8_encode xml_str with
  | Ok b =>
      match fromstring b with
      | inr element => Ok element
      | inl e => failed e
      end
  | Raise e => failed (str_exn e)
  end.

(** Line 163: the lookup from trimmed titles to test records; a later
    record replaces an earlier one of the same title. *)
Definition test_title_of (t : gmap pystr pyvalue) : pystr :=
  strip (py_str (dict_get t (py "title") (PyStr []))).

Definition build_test_data_map (test_data : list (gmap pystr pyvalue))
    : gmap pystr (gmap pystr pyvalue) :=
  fold_left (λ m t, <[test_title_of t := t]> m) test_data ∅.

Definition ref_id_of (ref_entry : gmap pystr pyvalue) : pystr :=
  strip (py_str (dict_get ref_entry (py "#") (PyStr []))).

(** The two lists the loop appends to. *)
Record report := mkReport {
  overview_results : list pystr;
  detailed_results : list pystr;
}.

Definition header_of (ref_entry : gmap pystr pyvalue)
    (test_title : pystr) : pystr :=
  let ref_id := ref_id_of ref_entry in
  let ref_name := dict_get ref_entry (py "Name") (PyStr (py "N/A")) in
  let ref_description :=
    dict_get ref_entry (py "Description ") (PyStr (py "N/A")) in
  let ref_expected :=
    dict_get ref_entry (py "Expected Results") (PyStr (py "N/A")) in
  [c_newline; 0x1F9E9%N] ++ py " Test #" ++ ref_id ++ py ": "
  ++ py_str ref_name ++ [c_newline; 0x1F4C4%N] ++ py " Description: "
  ++ py_str ref_description ++ [c_newline; 0x1F3AF%N]
  ++ py " Expected Result snippet:" ++ [c_newline] ++ py_str ref_expected
  ++ [c_newline; 0x1F501%N] ++ py " Comparing Reference "
  ++ [0x2194%N] ++ py " Test '" ++ test_title ++ py "' ...".

(** Lines 191-193, the first statements of the [try] block: what
    [compare_xml] raises on a node that is no element leaves the block
    like a failure of the parser. *)
Definition parse_and_compare (ref_xml_str test_xml_str : pystr)
    : result (list DiffEntry) :=
  ref_xml ← parse_xml ref_xml_str;
  test_xml ← parse_xml test_xml_str;
  compare_xml_node ref_xml test_xml.

(** [if test_entry:] (line 173): [None] and the empty object are
    false. *)
Definition truthy (test_entry : option (gmap pystr pyvalue))
    : option (gmap pystr pyvalue) :=
  match test_entry with
  | Some d => if bool_decide (d = ∅) then None else Some d
  | None => None
  end.

(** The lines one turn of the loop prints. *)
Definition pass_msg (ref_id : pystr) : pystr :=
  [0x2705%N] ++ py " Match OK for #" ++ ref_id ++ [c_newline].

Definition fail_msg (ref_id : pystr) : pystr :=
  [0x274C%N] ++ py " Differences found for #" ++ ref_id ++ py ":".

Definition error_msg (ref_id : pystr) (e : exn) : pystr :=
  warning_sign ++ py " XML parsing error for #" ++ ref_id ++ py ": "
  ++ str_exn e ++ [c_newline].

Definition warning_msg (ref_id : pystr) : pystr :=
  warning_sign ++ py " No matching test record found for Reference #"
  ++ ref_id ++ [c_newline].

(** One turn of the loop of lines 165-219.  The two calls of
    [clean_xml_string] and [print(header)] stand before the [try]:
    what they raise leaves the loop.  Of what the [try] block raises,
    the parser, the comparator or [print(msg)], the handler of line 209
    catches the [ValueError]s; what [print(err)] raises in the handler
    leaves the loop, and so does what [print(warning)] raises.  Every
    line is printed before it is appended. *)
Definition process_entry (test_data_map : gmap pystr (gmap pystr pyvalue))
    (r : report) (ref_entry : gmap pystr pyvalue) : result report :=
  let ref_id := ref_id_of ref_entry in
  let ref_xml_raw := dict_get ref_entry (py "Full MX-Message:") (PyStr []) in
  let test_entry := test_data_map !! ref_id in
  match truthy test_entry with
  | Some test_entry =>
      let test_title := test_title_of test_entry in
      let test_xml_raw := dict_get test_entry (py "content") (PyStr []) in
      ref_xml_str ← clean_xml_string ref_xml_raw;
      test_xml_str ← clean_xml_string test_xml_raw;
      let header := header_of ref_entry test_title in
      _ ← print header;
      let detailed := detailed_results r ++ [header] in
      let attempt : result report :=
        diffs ← parse_and_compare ref_xml_str test_xml_str;
        match diffs with
        | [] =>
            let msg := pass_msg ref_id in
            _ ← print msg;
            Ok (mkReport
                  (overview_results r ++ [py "test " ++ ref_id ++ py " pass"])
                  (detailed ++ [msg]))
        | _ =>
            let msg := fail_msg ref_id in
            _ ← print msg;
            Ok (mkReport
                  (overview_results r ++ [py "test " ++ ref_id ++ py " fail"])
                  (detailed ++ [msg]
                   ++ map (λ d, py "   - " ++ render d) diffs ++ [[]]))
        end in
      match attempt with
      | Ok r' => Ok r'
      | Raise e =>
          if is_ValueError e then
            let err := error_msg ref_id e in
            _ ← print err;
            Ok (mkReport
                  (overview_results r
                   ++ [py "test " ++ ref_id ++ py " fail (XML Error)"])
                  (detailed ++ [err]))
          else Raise e
      end
  | None =>
      let warning := warning_msg ref_id in
      _ ← print warning;
      Ok (mkReport
            (overview_results r
             ++ [py "test " ++ ref_id ++ py " fail (No Match)"])
            (detailed_results r ++ [warning]))
  end.

(** The loop of line 165. *)
Fixpoint process_entries (test_data_map : gmap pystr (gmap pystr pyvalue))
    (r : report) (ref_data : list (gmap pystr pyvalue)) : result report :=
  match ref_data with
  | [] => Ok r
  | ref_entry :: ref_data =>
      r ← process_entry test_data_map r ref_entry;
      process_entries test_data_map r ref_data
  end.

(** [process_comparison] from the loaded collections to the lines
    handed to [write_results_to_file]. *)
Definition process_comparison (ref_data test_data : list (gmap pystr pyvalue))
    : result (list pystr) :=
  let test_data_map := build_test_data_map test_data in
  r ← process_entries test_data_map (mkReport [] []) ref_data;
  Ok ([[0x1F50D%N] ++ py " Starting XML comparison process..." ++ [c_newline];
       py "Test result overview" ++ [c_newline]]
      ++ overview_results r ++ [[]] ++ detailed_results r).
End Orchestrator.

(** ** Reading a call of [recurse]

    What one call appends by itself, and the pairs of children it goes
    on to; [recurse_decompose] below shows that a call does exactly
    this much. *)

Definition local_tag (e : Element) : pystr := strip_namespace (tag e).

Definition current_path_of (path : pystr) (elem_a : Element) : pystr :=
  path ++ py "/" ++ local_tag elem_a.

Definition node_diffs (elem_a elem_b : Element) (path : pystr)
    : list DiffEntry :=
  let current_path := current_path_of path elem_a in
  let text_a := strip (default [] (text elem_a)) in
  let text_b := strip (default [] (text elem_b)) in
  if bool_decide (tag elem_a ≠ tag elem_b) then
    [TagMismatch path (local_tag elem_a) (local_tag elem_b)]
  else if bool_decide (local_tag elem_a ∈ IGNORED_TAGS) then []
  else
    (if bool_decide (text_a ≠ text_b)
     then [ValueMismatch current_path text_a text_b] else [])
    ++ (if bool_decide (attrib elem_a ≠ attrib elem_b)
        then [AttributeMismatch current_path (attrib elem_a) (attrib elem_b)]
        else [])
    ++ (if bool_decide (length (children elem_a) ≠ length (children elem_b))
        then [ChildCountMismatch current_path
                (length (children elem_a)) (length (children elem_b))]
        else []).

(** The pairs of children a call recurses into: none after a tag
    mismatch or under an ignored tag, otherwise the children paired by
    position up to the shorter list. *)
Definition scheduled (elem_a elem_b : Element) : list (Element * Element) :=
  if bool_decide (tag elem_a ≠ tag elem_b) then []
  else if bool_decide (local_tag elem_a ∈ IGNORED_TAGS) then []
  else zip (children elem_a) (children elem_b).

Definition is_tag_mismatch (d : DiffEntry) : bool :=
  match d with
  | TagMismatch _ _ _ => true
  | _ => false
  end.

(** The path a message prints. *)
Definition entry_path (d : DiffEntry) : pystr :=
  match d with
  | TagMismatch path _ _ => path
  | ValueMismatch current_path _ _
  | AttributeMismatch current_path _ _
  | ChildCountMismatch current_path _ _ => current_path
  end.

(** The same tree with every [tail] removed: two trees differ only in
    tail text when this gives the same tree for both. *)
Fixpoint erase_tails (e : Element) : Element :=
  mkElement (tag e) (text e) (attrib e) (map erase_tails (children e)) None.

(** ** A library to run examples

    The tables are empty above ASCII, the entity table holds the five
    entities of XML, and the parser is a table from texts to trees.
    The examples below use ASCII texts without named references, on
    which no table of the Unicode database is consulted. *)

Fixpoint lookup_text {A} (key : pystr) (table : list (pystr * A)) : option A :=
  match table with
  | (k, v) :: table' =>
      if bool_decide (k = key) then Some v else lookup_text key table'
  | [] => None
  end.

Definition html5_excerpt : list (pystr * pystr) :=
  [(py "lt;", [c_lt]); (py "gt;", [62%N]); (py "amp;", [c_amp]);
   (py "quot;", [c_quote]); (py "apos;", [39%N])].

Definition node_library (encodes : N → bool)
    (documents : list (pystr * Node)) : Library := {|
  uni_alnum := λ _, false;
  ucd_lookup := λ _, None;
  html5 := λ s, lookup_text s html5_excerpt;
  fromstring := λ b,
    match lookup_text b documents with
    | Some e => inr e
    | None => inl (py "Start tag expected, '<' not found, line 1, column 1")
    end;
  repr_attrib := λ _, py "{...}";
  encode_error_text := λ _, py "'utf-8' codec can't encode character";
  decode_error_text := λ _, py "'unicodeescape' codec can't decode bytes";
  no_attribute_text :=
    py "'cython_function_or_method' object has no attribute 'split'";
  stdout_encodes := encodes;
  stdout_error_text := λ _, py "'utf-8' codec can't encode character";
  uni_alnum_space := λ _ _, eq_refl;
|}.

(** A standard output in UTF-8 with the error handler [strict], the
    default: it writes every character but the surrogates. *)
Definition utf8_strict (c : N) : bool := negb (in_range 0xD800 0xDFFF c).

(** The library of the examples: the standard output is UTF-8 and the
    documents the parser knows hold elements only. *)
Definition example_library (documents : list (pystr * Element)) : Library :=
  node_library utf8_strict (map (λ d, (d.1, of_element d.2)) documents).

(** An element without attributes and tail; an empty [text] is no
    text. *)
Definition element (tag text : string) (children : list Element) : Element :=
  mkElement (py tag)
            (match text with EmptyString => None | _ => Some (py text) end)
            ∅ children None.
Arguments element (_ _)%_string _.

(** The same document element in two namespaces. *)
Definition doc_in_a : Element := mkElement (py "{urn:a}Doc") None ∅ [] None.
Definition doc_in_b : Element := mkElement (py "{urn:b}Doc") None ∅ [] None.

(** Two documents, their trees, and records that carry them. *)
Definition msg_amt (amount : string) : Element :=
  element "Msg" "" [element "Amt" amount []].

Definition example_documents : list (pystr * Element) :=
  [(py "<Msg><Amt>10</Amt></Msg>", msg_amt "10");
   (py "<Msg><Amt>20</Amt></Msg>", msg_amt "20");
   (py "<Msg><Amt>10</Amt>!</Msg>",
    element "Msg" ""
      [mkElement (py "Amt") (Some (py "10")) ∅ [] (Some (py "!"))])].

Definition reference_record (id : Z) (xml : string) : gmap pystr pyvalue :=
  {[ py "#" := PyInt id; py "Name" := PyStr (py "payment");
     py "Full MX-Message:" := PyStr (py xml) ]}.

Definition test_record (title xml : string) : gmap pystr pyvalue :=
  {[ py "title" := PyStr (py title); py "content" := PyStr (py xml) ]}.

(** The same library with a standard output that writes every
    character (an error handler that escapes what the encoding cannot
    write). *)
Definition escaping_library (documents : list (pystr * Element)) : Library :=
  node_library (λ _, true) (map (λ d, (d.1, of_element d.2)) documents).

(** A document with a comment before its first element, and the same
    document with text after that element. *)
Definition msg_with_comment (tail : option pystr) : Node :=
  ElementNode (py "Msg") None ∅
    [SpecialNode Comment (Some (py "note")) None;
     ElementNode (py "Amt") (Some (py "10")) ∅ [] tail] None.

Definition commented_documents : list (pystr * Node) :=
  [(py "<Msg><!--note--><Amt>10</Amt></Msg>", msg_with_comment None);
   (py "<Msg><!--note--><Amt>10</Amt>!</Msg>",
    msg_with_comment (Some (py "!")))].

Definition commented_library : Library :=
  node_library utf8_strict commented_documents.

(** A library whose parser knows the document [<a>\x41</a>], an
    element [a] whose text is a backslash followed by [x41]. *)
Definition backslash_library : Library :=
  example_library [(py "<a>\x41</a>", element "a" "\x41" [])].

(** No [?>] starts anywhere in [s]. *)
Definition no_declaration_end (s : pystr) : Prop :=
  ∀ k, startswith (drop k s) (py "?>") = false.

(** ** The cleaner of the input modules

    [clean_xml_content] is the same function in
    [src/modules/test_input.py] (lines 36-66) and
    [src/modules/reference.py] (lines 52-84). *)

Section Content.
Context `{Library}.
Local Open Scope N_scope.

Definition c_apostrophe : N := 39.

(** [$]: the end of the string, or the place before a newline that
    ends it. *)
Definition at_dollar (s : pystr) : bool :=
  match s with
  | [] => true
  | [c] => c =? c_newline
  | _ => false
  end.

(** The pattern [^'+|^"+|'+$|"+$] tried at the head of [s]: the length
    of the match.  A run of quotes is followed by the end only when it
    is the longest one, so giving back quotes never leads to a match. *)
Definition match_edge_quotes (at_start : bool) (s : pystr) : option nat :=
  let '(singles, after_singles) := span (λ c, c =? c_apostrophe) s in
  let '(doubles, after_doubles) := span (λ c, c =? c_quote) s in
  match singles, doubles with
  | _ :: _, _ =>
      if at_start || at_dollar after_singles then Some (length singles)
      else None
  | [], _ :: _ =>
      if at_start || at_dollar after_doubles then Some (length doubles)
      else None
  | [], [] => None
  end.

(** [re.sub(r"^'+|^\"+|'+$|\"+$", "", s)]; [at_start] says that the
    head of [s] is the start of the string, [skip] counts the characters
    of the current match still to pass over. *)
Fixpoint strip_edge_quotes_from (at_start : bool) (skip : nat) (s : pystr)
    : pystr :=
  match s with
  | [] => []
  | c :: s' =>
      match skip with
      | S k => strip_edge_quotes_from false k s'
      | O =>
          match match_edge_quotes at_start s with
          | Some n => strip_edge_quotes_from false (n - 1)%nat s'
          | None => c :: strip_edge_quotes_from false 0 s'
          end
      end
  end.

Definition strip_edge_quotes (s : pystr) : pystr :=
  strip_edge_quotes_from true 0 s.

(** [re.sub(r"\s+", " ", s)]: each longest run of white space becomes
    one space; [in_run] says that the character before the head of [s]
    was white space. *)
Fixpoint collapse_whitespace_from (in_run : bool) (s : pystr) : pystr :=
  match s with
  | [] => []
  | c :: s' =>
      if isspace c then
        if in_run then collapse_whitespace_from true s'
        else c_space :: collapse_whitespace_from true s'
      else c :: collapse_whitespace_from false s'
  end.

Definition collapse_whitespace (s : pystr) : pystr :=
  collapse_whitespace_from false s.

Definition clean_xml_content (raw : pyvalue) : result pystr :=
  match raw with
  | PyStr raw =>
      (* Step 1 *)
      let text := replace (replace (replace (strip raw) [0xFEFF] [])
                                   [13] [])
                          [c_newline] [c_space] in
      (* Step 2 *)
      let text := strip_edge_quotes (strip text) in
      (* Step 3 *)
      let text := replace (replace text [c_quote; c_quote] [c_quote])
                          [c_comma] [] in
      text ← unescape_backslashes text;
      text ← html_unescape text;
      (* Step 4 *)
      let text := quote_attrs text in
      (* Step 5 *)
      let text := collapse_whitespace text in
      Ok (strip (from_first_lt text))
  | _ => Ok []
  end.

(** ** [read_all_input_files] ([src/modules/test_input.py], lines 70-94)

    A file of the folder: the name without its extension
    ([file_path.stem]) and what opening and reading it gives. *)
Record input_file := mkInputFile {
  name : pystr;
  stem : pystr;
  read : result pystr;
}.

Definition record_of (title content : pystr) : gmap pystr pyvalue :=
  {[ py "title" := PyStr title; py "content" := PyStr content ]}.

(** The body of the loop of lines 81-91: the name of the file is
    printed before the [try]; then a record is appended, or the
    exception is caught, a line is printed in the handler and the file
    is skipped. *)
Definition read_input_file (records : list (gmap pystr pyvalue))
    (file_path : input_file) : result (list (gmap pystr pyvalue)) :=
  _ ← print ([0x1F4D6] ++ py " Reading: " ++ name file_path);
  match (content ← read file_path; clean_xml_content (PyStr content)) with
  | Ok cleaned_content =>
      Ok (records ++ [record_of (stem file_path) cleaned_content])
  | Raise e =>
      _ ← print (warning_sign ++ py " Skipping " ++ name file_path
                 ++ py ": " ++ str_exn e);
      Ok records
  end.

(** The loop of line 81. *)
Fixpoint read_input_files (records : list (gmap pystr pyvalue))
    (input_files : list input_file) : result (list (gmap pystr pyvalue)) :=
  match input_files with
  | [] => Ok records
  | file_path :: input_files =>
      records ← read_input_file records file_path;
      read_input_files records input_files
  end.

(** [read_all_input_files]: [folder] is [None] when the folder does
    not exist, otherwise the files [glob("*.xml")] and [glob("*.txt")]
    list; the result is the exception raised or the records. *)
Definition read_all_input_files (folder_path : pystr)
    (folder : option (list input_file * list input_file))
    : exn + list (gmap pystr pyvalue) :=
  let run : result (list (gmap pystr pyvalue)) :=
    _ ← print ([0x1F4C2] ++ py " Scanning folder: " ++ folder_path);
    match folder with
    | None =>
        Raise (FileNotFoundError
                 ([0x274C] ++ py " Folder not found: " ++ folder_path))
    | Some (xml_files, txt_files) =>
        let input_files := xml_files ++ txt_files in
        match input_files with
        | [] =>
            Raise (FileNotFoundError
                     (warning_sign ++ py " No .xml or .txt files found in: "
                      ++ folder_path))
        | _ =>
            records ← read_input_files [] input_files;
            _ ← print ([0x2705] ++ py " Read and cleaned "
                       ++ str_nat (length records) ++ py " XML/TXT file(s).");
            Ok records
        end
    end in
  match run with
  | Ok records => inr records
  | Raise e => inl e
  end.
End Content.

(** ** Reading the comparator: agreement of two trees

    What [compare_xml] checks: the two nodes are elements, their tags
    are equal and, unless the local name is ignored, the trimmed texts,
    the attributes and the numbers of children are equal and the
    children agree pairwise. *)
#[warnings="-register-all"]
Inductive agree : Node → Node → Prop :=
  | agree_ignored tag text_a text_b attrib_a attrib_b children_a children_b
      tail_a tail_b :
      strip_namespace tag ∈ IGNORED_TAGS →
      agree (ElementNode tag text_a attrib_a children_a tail_a)
            (ElementNode tag text_b attrib_b children_b tail_b)
  | agree_compared tag text_a text_b attrib children_a children_b
      tail_a tail_b :
      strip_namespace tag ∉ IGNORED_TAGS →
      strip (default [] text_a) = strip (default [] text_b) →
      Forall2 agree children_a children_b →
      agree (ElementNode tag text_a attrib children_a tail_a)
            (ElementNode tag text_b attrib children_b tail_b).

(** The same tree with every [tail] removed. *)
Fixpoint erase_tails_node (t : Node) : Node :=
  match t with
  | ElementNode tag text attrib children _ =>
      ElementNode tag text attrib (map erase_tails_node children) None
  | SpecialNode kind text _ => SpecialNode kind text None
  end.

(** A tree that can be compared with itself: the comparison meets no
    node that is no element.  What stands below an ignored tag is not
    met. *)
Fixpoint comparable (t : Node) : bool :=
  match t with
  | ElementNode tag _ _ children _ =>
      bool_decide (strip_namespace tag ∈ IGNORED_TAGS)
      || forallb comparable children
  | SpecialNode _ _ _ => false
  end.

(** A tree all of whose nodes are elements. *)
Fixpoint elements_only (t : Node) : bool :=
  match t with
  | ElementNode _ _ _ children _ => forallb elements_only children
  | SpecialNode _ _ _ => false
  end.

(** A message with its two sides exchanged. *)
Definition mirror (d : DiffEntry) : DiffEntry :=
  match d with
  | TagMismatch path tag_a_local tag_b_local =>
      TagMismatch path tag_b_local tag_a_local
  | ValueMismatch current_path text_a text_b =>
      ValueMismatch current_path text_b text_a
  | AttributeMismatch current_path attrib_a attrib_b =>
      AttributeMismatch current_path attrib_b attrib_a
  | ChildCountMismatch current_path len_a len_b =>
      ChildCountMismatch current_path len_b len_a
  end.

(** A surrogate code point, which UTF-8 cannot encode. *)
Definition is_surrogate (c : N) : bool := in_range 0xD800 0xDFFF c.

(** The suffixes of the overview lines. *)
Definition overview_suffixes : list pystr :=
  [py " pass"; py " fail"; py " fail (XML Error)"; py " fail (No Match)"].

(** Every white space character of [s] is a space, and no two spaces
    stand side by side. *)
Definition single_spaced (s : pystr) : Prop :=
  (∀ c, c ∈ s → isspace c = true → c = c_space)
  ∧ (∀ i, s !! i = Some c_space → s !! S i ≠ Some c_space).

(** The two calls of [clean_xml_string] of one turn of the loop (lines
    177-178) return; a reference record without a test record makes
    neither call. *)
Definition cleans `{Library} (test_data_map : gmap pystr (gmap pystr pyvalue))
    (ref_entry : gmap pystr pyvalue) : Prop :=
  match truthy (test_data_map !! ref_id_of ref_entry) with
  | Some test_entry =>
      (∃ ref_xml_str,
         clean_xml_string
           (dict_get ref_entry (py "Full MX-Message:") (PyStr []))
         = Ok ref_xml_str)
      ∧ (∃ test_xml_str,
           clean_xml_string (dict_get test_entry (py "content") (PyStr []))
           = Ok test_xml_str)
  | None => True
  end.

(** * Proofs *)

(** ** Induction on trees *)

Lemma Element_forall_ind (P : Element → Prop) :
  (∀ t x a cs tl, Forall P cs → P (mkElement t x a cs tl)) →
  ∀ e, P e.
Proof.
  intros step. fix IH 1. intros [t x a cs tl]. apply step.
  induction cs as [|c cs IHcs]; constructor; [apply IH | exact IHcs].
Qed.

(** ** The comparator: what a call does *)

Lemma for_zip_recurse_children current_path children_a children_b diffs :
  (fix for_zip (children_a children_b : list Element)
       (diffs : list DiffEntry) {struct children_a} : list DiffEntry :=
     match children_a, children_b with
     | a_child :: children_a, b_child :: children_b =>
         for_zip children_a children_b
           (recurse a_child b_child current_path diffs)
     | _, _ => diffs
     end) children_a children_b diffs
  = recurse_children children_a children_b current_path diffs.
Proof.
  revert children_b diffs.
  induction children_a as [|a ca IH]; intros [|b cb] d; cbn;
    try reflexivity; apply IH.
Qed.

Lemma recurse_unfold elem_a elem_b path diffs :
  recurse elem_a elem_b path diffs =
    let current_path := current_path_of path elem_a in
    let text_a := strip (default [] (text elem_a)) in
    let text_b := strip (default [] (text elem_b)) in
    if bool_decide (tag elem_a ≠ tag elem_b) then
      diffs ++ [TagMismatch path (local_tag elem_a) (local_tag elem_b)]
    else if bool_decide (local_tag elem_a ∈ IGNORED_TAGS) then diffs
    else
      let diffs :=
        if bool_decide (text_a ≠ text_b)
        then diffs ++ [ValueMismatch current_path text_a text_b]
        else diffs in
      let diffs :=
        if bool_decide (attrib elem_a ≠ attrib elem_b)
        then diffs ++ [AttributeMismatch current_path (attrib elem_a) (attrib elem_b)]
        else diffs in
      let diffs :=
        if bool_decide (length (children elem_a) ≠ length (children elem_b))
        then diffs ++ [ChildCountMismatch current_path
                         (length (children elem_a)) (length (children elem_b))]
        else diffs in
      recurse_children (children elem_a) (children elem_b) current_path diffs.
Proof.
  destruct elem_a as [ta xa aa ca tla]; cbn [recurse tag text attrib children].
  unfold current_path_of, local_tag; cbn [tag text attrib children].
  destruct (bool_decide (ta ≠ tag elem_b)); [reflexivity|].
  destruct (bool_decide (strip_namespace ta ∈ IGNORED_TAGS)); [reflexivity|].
  cbv zeta. apply for_zip_recurse_children.
Qed.

(** The list passed in is only appended to. *)
Lemma recurse_children_app_of children_a :
  Forall (λ a, ∀ b path diffs,
            recurse a b path diffs = diffs ++ recurse a b path []) children_a →
  ∀ children_b path diffs,
    recurse_children children_a children_b path diffs
    = diffs ++ recurse_children children_a children_b path [].
Proof.
  induction 1 as [|a ca Ha _ IH]; intros [|b cb] path diffs; cbn;
    rewrite ?app_nil_r; try reflexivity.
  rewrite IH, (IH _ _ (recurse a b path [])), Ha, app_assoc. reflexivity.
Qed.

Lemma recurse_app elem_a :
  ∀ elem_b path diffs,
    recurse elem_a elem_b path diffs = diffs ++ recurse elem_a elem_b path [].
Proof.
  induction elem_a as [ta xa aa ca tla IH] using Element_forall_ind.
  intros elem_b path diffs. rewrite !recurse_unfold. cbv zeta.
  cbn [tag text attrib children].
  destruct (bool_decide (ta ≠ tag elem_b)); [reflexivity|].
  destruct (bool_decide (_ ∈ IGNORED_TAGS)); [by rewrite app_nil_r|].
  repeat match goal with
         | |- context [recurse_children ?x ?cb ?p ?d] =>
             lazymatch d with
             | [] => fail
             | _ => rewrite (recurse_children_app_of x IH cb p d)
             end
         end.
  rewrite app_assoc. f_equal.
  repeat case_bool_decide; cbn; rewrite <- ?app_assoc, ?app_nil_r; reflexivity.
Qed.

Lemma recurse_children_app children_a children_b path diffs :
  recurse_children children_a children_b path diffs
  = diffs ++ recurse_children children_a children_b path [].
Proof.
  apply recurse_children_app_of, Forall_forall. intros a _. apply recurse_app.
Qed.

Lemma recurse_children_flat_map children_a children_b path :
  recurse_children children_a children_b path []
  = flat_map (λ pair, recurse pair.1 pair.2 path [])
             (zip children_a children_b).
Proof.
  revert children_b.
  induction children_a as [|a ca IH]; intros [|b cb]; cbn; try reflexivity.
  rewrite recurse_children_app, IH. reflexivity.
Qed.

(** A call appends its own messages, then those of the pairs it goes
    on to, in order. *)
Lemma recurse_decompose elem_a elem_b path diffs :
  recurse elem_a elem_b path diffs
  = diffs ++ node_diffs elem_a elem_b path
    ++ flat_map (λ pair, recurse pair.1 pair.2
                           (current_path_of path elem_a) [])
                (scheduled elem_a elem_b).
Proof.
  rewrite recurse_unfold. unfold node_diffs, scheduled. cbv zeta.
  destruct (bool_decide (tag elem_a ≠ tag elem_b)); [reflexivity|].
  destruct (bool_decide (_ ∈ IGNORED_TAGS)); [by rewrite app_nil_r|].
  rewrite recurse_children_app, recurse_children_flat_map.
  rewrite !app_assoc. f_equal.
  repeat case_bool_decide; cbn; rewrite <- ?app_assoc, ?app_nil_r; reflexivity.
Qed.

(** ** The comparator on the examples of the specification *)

Example compare_ignored_tag :
  compare_xml
    (element "Msg" "" [element "BizMsgIdr" "ABC" [];
                         element "Amt" "10" []])
    (element "Msg" "" [element "BizMsgIdr" "XYZ" [];
                         element "Amt" "10" []])
  = [].
Proof. vm_compute. reflexivity. Qed.

Example compare_value_mismatch :
  compare_xml
    (element "Msg" "" [element "Amt" "10" []])
    (element "Msg" "" [element "Amt" "20" []])
  = [ValueMismatch (py "/Msg/Amt") (py "10") (py "20")].
Proof. vm_compute. reflexivity. Qed.

Example compare_child_count :
  compare_xml
    (element "Msg" "" [element "A" "" []; element "B" "" []])
    (element "Msg" "" [element "A" "" []])
  = [ChildCountMismatch (py "/Msg") 2 1].
Proof. vm_compute. reflexivity. Qed.

(** ** The comparator: tag mismatches, ignored tags, paths *)

Lemma local_tags_differ elem_a elem_b :
  local_tag elem_a ≠ local_tag elem_b → tag elem_a ≠ tag elem_b.
Proof. unfold local_tag. congruence. Qed.

Lemma node_diffs_tags_differ elem_a elem_b path :
  tag elem_a ≠ tag elem_b →
  node_diffs elem_a elem_b path
  = [TagMismatch path (local_tag elem_a) (local_tag elem_b)].
Proof. intros Hne. unfold node_diffs. by rewrite bool_decide_true. Qed.

Lemma node_diffs_tags_equal elem_a elem_b path d :
  tag elem_a = tag elem_b →
  d ∈ node_diffs elem_a elem_b path →
  is_tag_mismatch d = false ∧ entry_path d = current_path_of path elem_a.
Proof.
  intros Heq. unfold node_diffs. cbv zeta.
  rewrite bool_decide_false by (intros Hne; apply Hne, Heq).
  destruct (bool_decide (_ ∈ IGNORED_TAGS)); [by intros ?%elem_of_nil|].
  rewrite !elem_of_app.
  repeat case_bool_decide; rewrite ?list_elem_of_singleton, ?elem_of_nil;
    intros [?|[?|?]]; subst; try done; split; reflexivity.
Qed.

(** C1 (as stated) fails: the two elements have the same local name
    [Doc] and different namespaces, and the comparator reports a tag
    mismatch that prints the two equal local names. *)
Lemma tag_mismatch_with_equal_local_names :
  local_tag doc_in_a = local_tag doc_in_b
  ∧ compare_xml doc_in_a doc_in_b = [TagMismatch [] (py "Doc") (py "Doc")].
Proof. split; vm_compute; reflexivity. Qed.

(** C1 (amended): a call of [recurse] appends a tag mismatch by itself
    if and only if the qualified tags ([{uri}local]) of the two nodes
    differ; this is so whenever their local names differ, and also when
    only their namespaces do. *)
Theorem tag_mismatch_iff_qualified_tags_differ elem_a elem_b path diffs :
  recurse elem_a elem_b path diffs
  = diffs ++ node_diffs elem_a elem_b path
    ++ flat_map (λ pair, recurse pair.1 pair.2
                           (current_path_of path elem_a) [])
                (scheduled elem_a elem_b)
  ∧ ((∃ d, d ∈ node_diffs elem_a elem_b path ∧ is_tag_mismatch d = true)
     ↔ tag elem_a ≠ tag elem_b)
  ∧ (local_tag elem_a ≠ local_tag elem_b → tag elem_a ≠ tag elem_b).
Proof.
  split; [apply recurse_decompose|]. split; [|apply local_tags_differ].
  split.
  - intros (d & Hd & Htm) Heq.
    destruct (node_diffs_tags_equal _ _ _ _ Heq Hd) as [Hf _]. congruence.
  - intros Hne. rewrite (node_diffs_tags_differ _ _ _ Hne).
    eexists. split; [apply list_elem_of_singleton; reflexivity|reflexivity].
Qed.






(** C9: a tag mismatch prints the path the call was given, which is the
    path of the parent, without the local name of the node; the three
    other messages print that path followed by [/] and the local name
    of the node. *)
Theorem entry_paths elem_a elem_b path diffs :
  recurse elem_a elem_b path diffs
  = diffs ++ node_diffs elem_a elem_b path
    ++ flat_map (λ pair, recurse pair.1 pair.2
                           (path ++ py "/" ++ local_tag elem_a) [])
                (scheduled elem_a elem_b)
  ∧ ∀ d, d ∈ node_diffs elem_a elem_b path →
      match d with
      | TagMismatch p _ _ => p = path
      | ValueMismatch p _ _ | AttributeMismatch p _ _
      | ChildCountMismatch p _ _ => p = path ++ py "/" ++ local_tag elem_a
      end.
Proof.
  split; [apply recurse_decompose|]. intros d Hd.
  destruct (decide (tag elem_a = tag elem_b)) as [Heq|Hne].
  - destruct (node_diffs_tags_equal _ _ _ _ Heq Hd) as [Hf Hp].
    destruct d; cbn in *; done.
  - rewrite (node_diffs_tags_differ _ _ _ Hne) in Hd.
    apply list_elem_of_singleton in Hd. by subst.
Qed.

(** ** The comparator never reads [tail] *)

Lemma recurse_children_erase_tails children_a :
  Forall (λ a, ∀ b path diffs,
            recurse a b path diffs
            = recurse (erase_tails a) (erase_tails b) path diffs) children_a →
  ∀ children_b path diffs,
    recurse_children children_a children_b path diffs
    = recurse_children (map erase_tails children_a)
                       (map erase_tails children_b) path diffs.
Proof.
  induction 1 as [|a ca Ha _ IH]; intros [|b cb] path diffs; cbn;
    try reflexivity.
  rewrite Ha. apply IH.
Qed.

Lemma recurse_erase_tails elem_a :
  ∀ elem_b path diffs,
    recurse elem_a elem_b path diffs
    = recurse (erase_tails elem_a) (erase_tails elem_b) path diffs.
Proof.
  induction elem_a as [ta xa aa ca tla IH] using Element_forall_ind.
  intros [tb xb ab cb tlb] path diffs. rewrite !recurse_unfold.
  unfold current_path_of, local_tag.
  cbn [erase_tails tag text attrib children]. cbv zeta.
  rewrite !length_map.
  rewrite <- (recurse_children_erase_tails ca IH). reflexivity.
Qed.

Lemma recurse_children_same children :
  Forall (λ e, ∀ path diffs, recurse e e path diffs = diffs) children →
  ∀ path diffs, recurse_children children children path diffs = diffs.
Proof.
  induction 1 as [|e cs He _ IH]; intros path diffs; cbn; [reflexivity|].
  rewrite He. apply IH.
Qed.

(** A tree compared with itself gives no message. *)
Lemma recurse_same elem :
  ∀ path diffs, recurse elem elem path diffs = diffs.
Proof.
  induction elem as [t x a cs tl IH] using Element_forall_ind.
  intros path diffs. rewrite recurse_unfold. cbv zeta.
  cbn [tag text attrib children].
  rewrite bool_decide_false by (intros Hne; by apply Hne).
  destruct (bool_decide (_ ∈ IGNORED_TAGS)); [reflexivity|].
  rewrite !bool_decide_false by (intros Hne; by apply Hne).
  apply (recurse_children_same cs IH).
Qed.

Lemma compare_xml_erase_tails xml_a xml_b :
  compare_xml xml_a xml_b
  = compare_xml (erase_tails xml_a) (erase_tails xml_b).
Proof. apply recurse_erase_tails. Qed.

Lemma compare_xml_only_tails_differ xml_a xml_b :
  erase_tails xml_a = erase_tails xml_b → compare_xml xml_a xml_b = [].
Proof.
  intros Heq. rewrite compare_xml_erase_tails, Heq. apply recurse_same.
Qed.

(** ** The comparator on the trees [lxml] returns *)

Lemma Node_forall_ind (P : Node → Prop) :
  (∀ t x a cs tl, Forall P cs → P (ElementNode t x a cs tl)) →
  (∀ k x tl, P (SpecialNode k x tl)) →
  ∀ n, P n.
Proof.
  intros step special. fix IH 1. intros [t x a cs tl|k x tl]; [|apply special].
  apply step.
  induction cs as [|c cs IHcs]; constructor; [apply IH | exact IHcs].
Qed.

Section Nodes.
Context `{Library}.

Lemma for_zip_recurse_children_node current_path children_a children_b diffs :
  (fix for_zip (children_a children_b : list Node)
       (diffs : list DiffEntry) {struct children_a}
       : result (list DiffEntry) :=
     match children_a, children_b with
     | a_child :: children_a, b_child :: children_b =>
         diffs ← recurse_node a_child b_child current_path diffs;
         for_zip children_a children_b diffs
     | _, _ => Ok diffs
     end) children_a children_b diffs
  = recurse_children_node children_a children_b current_path diffs.
Proof.
  revert children_b diffs.
  induction children_a as [|a ca IH]; intros [|b cb] d; cbn;
    try reflexivity.
  destruct (recurse_node a b current_path d) as [d'|e]; cbn; [apply IH|done].
Qed.

(** A call on two elements. *)
Lemma recurse_node_unfold tag_a text_a attrib_a children_a tail_a
    tag_b text_b attrib_b children_b tail_b path diffs :
  recurse_node (ElementNode tag_a text_a attrib_a children_a tail_a)
               (ElementNode tag_b text_b attrib_b children_b tail_b)
               path diffs =
    let current_path := path ++ py "/" ++ strip_namespace tag_a in
    let text_a := strip (default [] text_a) in
    let text_b := strip (default [] text_b) in
    if bool_decide (tag_a ≠ tag_b) then
      Ok (diffs ++ [TagMismatch path (strip_namespace tag_a)
                      (strip_namespace tag_b)])
    else if bool_decide (strip_namespace tag_a ∈ IGNORED_TAGS) then Ok diffs
    else
      let diffs :=
        if bool_decide (text_a ≠ text_b)
        then diffs ++ [ValueMismatch current_path text_a text_b]
        else diffs in
      let diffs :=
        if bool_decide (attrib_a ≠ attrib_b)
        then diffs ++ [AttributeMismatch current_path attrib_a attrib_b]
        else diffs in
      let diffs :=
        if bool_decide (length children_a ≠ length children_b)
        then diffs ++ [ChildCountMismatch current_path
                         (length children_a) (length children_b)]
        else diffs in
      recurse_children_node children_a children_b current_path diffs.
Proof.
  cbn [recurse_node].
  destruct (bool_decide (tag_a ≠ tag_b)); [reflexivity|].
  destruct (bool_decide (_ ∈ IGNORED_TAGS)); [reflexivity|].
  cbv zeta. apply for_zip_recurse_children_node.
Qed.

(** A call on a node that is no element raises. *)
Lemma recurse_node_special elem_a elem_b path diffs :
  (∃ kind text tail, elem_a = SpecialNode kind text tail)
  ∨ (∃ kind text tail, elem_b = SpecialNode kind text tail) →
  recurse_node elem_a elem_b path diffs
  = Raise (AttributeError no_attribute_text).
Proof.
  intros [(k & x & tl & ->)|(k & x & tl & ->)]; [done|].
  by destruct elem_a.
Qed.

(** *** What a call raises *)

Lemma recurse_children_node_raises children_a :
  Forall (λ a, ∀ b path diffs e,
            recurse_node a b path diffs = Raise e →
            e = AttributeError no_attribute_text) children_a →
  ∀ children_b path diffs e,
    recurse_children_node children_a children_b path diffs = Raise e →
    e = AttributeError no_attribute_text.
Proof.
  induction 1 as [|a ca Ha _ IH]; intros [|b cb] path diffs e; cbn;
    try done.
  destruct (recurse_node a b path diffs) as [d|e'] eqn:Hab; cbn.
  - apply IH.
  - intros [= <-]. by eapply Ha.
Qed.

Lemma recurse_node_raises elem_a :
  ∀ elem_b path diffs e,
    recurse_node elem_a elem_b path diffs = Raise e →
    e = AttributeError no_attribute_text.
Proof.
  induction elem_a as [ta xa aa ca tla IH|k x tl] using Node_forall_ind;
    intros [tb xb ab cb tlb|k' x' tl'] path diffs e;
    try (cbn; by intros [= <-]).
  rewrite recurse_node_unfold. cbv zeta.
  destruct (bool_decide (ta ≠ tb)); [done|].
  destruct (bool_decide (_ ∈ IGNORED_TAGS)); [done|].
  by apply recurse_children_node_raises.
Qed.

Lemma compare_xml_node_raises xml_a xml_b e :
  compare_xml_node xml_a xml_b = Raise e →
  e = AttributeError no_attribute_text.
Proof. apply recurse_node_raises. Qed.

(** *** The list passed in is only appended to *)

Lemma recurse_children_node_prefix children_a :
  Forall (λ a, ∀ b path diffs out,
            recurse_node a b path diffs = Ok out → diffs `prefix_of` out)
         children_a →
  ∀ children_b path diffs out,
    recurse_children_node children_a children_b path diffs = Ok out →
    diffs `prefix_of` out.
Proof.
  induction 1 as [|a ca Ha _ IH]; intros [|b cb] path diffs out; cbn;
    try (by intros [= <-]).
  destruct (recurse_node a b path diffs) as [d|e] eqn:Hab; cbn; [|done].
  intros Hrest%IH. etrans; [by eapply Ha|done].
Qed.

Lemma recurse_node_prefix elem_a :
  ∀ elem_b path diffs out,
    recurse_node elem_a elem_b path diffs = Ok out → diffs `prefix_of` out.
Proof.
  induction elem_a as [ta xa aa ca tla IH|k x tl] using Node_forall_ind;
    intros [tb xb ab cb tlb|k' x' tl'] path diffs out; try done.
  rewrite recurse_node_unfold. cbv zeta.
  destruct (bool_decide (ta ≠ tb)); [intros [= <-]; by apply prefix_app_r|].
  destruct (bool_decide (_ ∈ IGNORED_TAGS)); [by intros [= <-]|].
  intros Hrest%(recurse_children_node_prefix ca IH).
  etrans; [|exact Hrest].
  repeat case_bool_decide; repeat (etrans; [|by apply prefix_app_r]); done.
Qed.

Lemma recurse_children_node_prefix_of children_a children_b path diffs out :
  recurse_children_node children_a children_b path diffs = Ok out →
  diffs `prefix_of` out.
Proof.
  apply recurse_children_node_prefix, Forall_forall.
  intros a _. apply recurse_node_prefix.
Qed.

(** *** Trees of elements *)

Lemma recurse_children_node_of_element children_a :
  Forall (λ a, ∀ b path diffs,
            recurse_node (of_element a) (of_element b) path diffs
            = Ok (recurse a b path diffs)) children_a →
  ∀ children_b path diffs,
    recurse_children_node (map of_element children_a)
      (map of_element children_b) path diffs
    = Ok (recurse_children children_a children_b path diffs).
Proof.
  induction 1 as [|a ca Ha _ IH]; intros [|b cb] path diffs; cbn;
    try reflexivity.
  rewrite Ha. cbn. apply IH.
Qed.

(** On two trees of elements the comparator returns, with the messages
    of [recurse]. *)
Lemma recurse_node_of_element elem_a :
  ∀ elem_b path diffs,
    recurse_node (of_element elem_a) (of_element elem_b) path diffs
    = Ok (recurse elem_a elem_b path diffs).
Proof.
  induction elem_a as [ta xa aa ca tla IH] using Element_forall_ind.
  intros [tb xb ab cb tlb] path diffs.
  cbn [of_element tag text attrib children tail].
  rewrite recurse_node_unfold, recurse_unfold. cbv zeta.
  unfold current_path_of, local_tag. cbn [tag text attrib children tail].
  destruct (bool_decide (ta ≠ tb)); [reflexivity|].
  destruct (bool_decide (_ ∈ IGNORED_TAGS)); [reflexivity|].
  rewrite !length_map. by apply recurse_children_node_of_element.
Qed.

Lemma elements_only_of_element t :
  elements_only t = true ↔ ∃ e, t = of_element e.
Proof.
  split.
  - induction t as [ta xa aa ca tla IH|k x tl] using Node_forall_ind;
      [|done].
    cbn [elements_only]. intros Hall.
    assert (∃ es, ca = map of_element es) as [es ->].
    { induction IH as [|c cs Hc _ IHcs]; [by exists []|].
      cbn in Hall. apply andb_true_iff in Hall as [Hc' Hcs'].
      destruct (Hc Hc') as [e ->]. destruct (IHcs Hcs') as [es ->].
      by exists (e :: es). }
    by exists (mkElement ta xa aa es tla).
  - intros [e ->].
    induction e as [ta xa aa ca tla IH] using Element_forall_ind.
    cbn [of_element elements_only tag text attrib children tail].
    induction IH as [|c cs Hc _ IHcs]; [done|]. cbn.
    by rewrite Hc, IHcs.
Qed.

(** *** The tails are not read *)

Lemma recurse_children_node_erase_tails children_a :
  Forall (λ a, ∀ b path diffs,
            recurse_node (erase_tails_node a) (erase_tails_node b) path diffs
            = recurse_node a b path diffs) children_a →
  ∀ children_b path diffs,
    recurse_children_node (map erase_tails_node children_a)
      (map erase_tails_node children_b) path diffs
    = recurse_children_node children_a children_b path diffs.
Proof.
  induction 1 as [|a ca Ha _ IH]; intros [|b cb] path diffs; cbn;
    try reflexivity.
  rewrite Ha. destruct (recurse_node a b path diffs); cbn; [apply IH|done].
Qed.

Lemma recurse_node_erase_tails elem_a :
  ∀ elem_b path diffs,
    recurse_node (erase_tails_node elem_a) (erase_tails_node elem_b)
      path diffs
    = recurse_node elem_a elem_b path diffs.
Proof.
  induction elem_a as [ta xa aa ca tla IH|k x tl] using Node_forall_ind;
    intros [tb xb ab cb tlb|k' x' tl'] path diffs; try reflexivity.
  cbn [erase_tails_node]. rewrite !recurse_node_unfold. cbv zeta.
  destruct (bool_decide (ta ≠ tb)); [reflexivity|].
  destruct (bool_decide (_ ∈ IGNORED_TAGS)); [reflexivity|].
  rewrite !length_map. by apply recurse_children_node_erase_tails.
Qed.

Lemma recurse_children_node_same_but_tails children_a :
  Forall (λ a, ∀ b path diffs,
            erase_tails_node a = erase_tails_node b →
            recurse_node a b path diffs
            = if comparable a then Ok diffs
              else Raise (AttributeError no_attribute_text)) children_a →
  ∀ children_b path diffs,
    map erase_tails_node children_a = map erase_tails_node children_b →
    recurse_children_node children_a children_b path diffs
    = if forallb comparable children_a then Ok diffs
      else Raise (AttributeError no_attribute_text).
Proof.
  induction 1 as [|a ca Ha _ IH]; intros [|b cb] path diffs; cbn;
    try done.
  intros [= Hab Hrest]. rewrite (Ha _ _ _ Hab).
  destruct (comparable a); cbn; [by apply IH|done].
Qed.

(** Two trees that differ in tails only: the comparison returns no
    message, or raises when it meets a node that is no element. *)
Lemma recurse_node_same_but_tails elem_a :
  ∀ elem_b path diffs,
    erase_tails_node elem_a = erase_tails_node elem_b →
    recurse_node elem_a elem_b path diffs
    = if comparable elem_a then Ok diffs
      else Raise (AttributeError no_attribute_text).
Proof.
  induction elem_a as [ta xa aa ca tla IH|k x tl] using Node_forall_ind;
    intros [tb xb ab cb tlb|k' x' tl'] path diffs; try done.
  cbn [erase_tails_node comparable]. intros [= <- <- <- Hkids].
  rewrite recurse_node_unfold. cbv zeta.
  rewrite (bool_decide_false (ta ≠ ta)) by (intros Hne; by apply Hne).
  destruct (bool_decide (_ ∈ IGNORED_TAGS)); [done|]. cbn [orb].
  rewrite (bool_decide_false (strip _ ≠ strip _))
    by (intros Hne; by apply Hne).
  rewrite (bool_decide_false (aa ≠ aa)) by (intros Hne; by apply Hne).
  rewrite (bool_decide_false (length ca ≠ length cb)).
  2:{ intros Hne. apply Hne.
      by rewrite <- (length_map erase_tails_node ca), Hkids, length_map. }
  by apply recurse_children_node_same_but_tails.
Qed.

(** *** When the comparison returns no message *)

Lemma recurse_children_node_nil_inv children_a :
  Forall (λ a, ∀ b path, recurse_node a b path [] = Ok [] → agree a b)
         children_a →
  ∀ children_b path,
    length children_a = length children_b →
    recurse_children_node children_a children_b path [] = Ok [] →
    Forall2 agree children_a children_b.
Proof.
  induction 1 as [|a ca Ha _ IH]; intros [|b cb] path; cbn; try done.
  intros [= Hlen].
  destruct (recurse_node a b path []) as [d|e] eqn:Hab; cbn; [|done].
  intros Hrest.
  apply recurse_children_node_prefix_of in Hrest as Hpre.
  apply prefix_nil_inv in Hpre as ->.
  constructor; [by eapply Ha|by eapply IH].
Qed.

Lemma recurse_node_nil_agree elem_a :
  ∀ elem_b path, recurse_node elem_a elem_b path [] = Ok [] →
                 agree elem_a elem_b.
Proof.
  induction elem_a as [ta xa aa ca tla IH|k x tl] using Node_forall_ind;
    intros [tb xb ab cb tlb|k' x' tl'] path; try done.
  rewrite recurse_node_unfold. cbv zeta.
  destruct (decide (ta = tb)) as [<-|Htag];
    [|rewrite bool_decide_true by done; by intros [=]].
  rewrite (bool_decide_false (ta ≠ ta)) by (intros Hne; by apply Hne).
  destruct (decide (strip_namespace ta ∈ IGNORED_TAGS)) as [Hign|Hign];
    [intros _; by constructor|].
  rewrite (bool_decide_false _ Hign).
  intros Hrest. apply recurse_children_node_prefix_of in Hrest as Hpre.
  apply prefix_nil_inv in Hpre.
  destruct (decide (length ca = length cb)) as [Hlen|Hlen];
    [|rewrite (bool_decide_true (length ca ≠ length cb)) in Hpre by done;
      by destruct (app_cons_not_nil _ _ _ (eq_sym Hpre))].
  rewrite (bool_decide_false (length ca ≠ length cb)) in Hpre, Hrest
    by (intros Hne; by apply Hne).
  destruct (decide (aa = ab)) as [<-|Hattr];
    [|rewrite (bool_decide_true (aa ≠ ab)) in Hpre by done;
      by destruct (app_cons_not_nil _ _ _ (eq_sym Hpre))].
  rewrite (bool_decide_false (aa ≠ aa)) in Hpre, Hrest
    by (intros Hne; by apply Hne).
  destruct (decide (strip (default [] xa) = strip (default [] xb)))
    as [Htext|Htext];
    [|rewrite bool_decide_true in Hpre by done; discriminate].
  rewrite bool_decide_false in Hrest by (intros Hne; by apply Hne).
  apply agree_compared; [done|done|].
  by eapply recurse_children_node_nil_inv.
Qed.

Lemma agree_recurse_node elem_a elem_b :
  agree elem_a elem_b → ∀ path diffs,
    recurse_node elem_a elem_b path diffs = Ok diffs.
Proof.
  revert elem_b.
  induction elem_a as [ta xa aa ca tla IH|k x tl] using Node_forall_ind;
    intros elem_b Hagree path diffs; inversion Hagree; subst.
  - rewrite recurse_node_unfold. cbv zeta.
    rewrite (bool_decide_false (ta ≠ ta)) by (intros Hne; by apply Hne).
    by rewrite bool_decide_true.
  - rewrite recurse_node_unfold. cbv zeta.
    rewrite (bool_decide_false (ta ≠ ta)) by (intros Hne; by apply Hne).
    rewrite (bool_decide_false (_ ∈ IGNORED_TAGS)) by done.
    match goal with Hk : Forall2 agree _ _ |- _ => rename Hk into Hkids end.
    pose proof (Forall2_length _ _ _ Hkids) as Hlen.
    repeat case_bool_decide; try done.
    clear -IH Hkids. generalize (path ++ py "/" ++ strip_namespace ta).
    intros cp. revert diffs.
    induction Hkids as [|a b ca' cb' Hab _ IHk]; intros diffs; [done|].
    apply Forall_cons in IH as [Ha IHrest]. cbn.
    rewrite (Ha _ Hab). cbn. by apply IHk.
Qed.
End Nodes.

(** ** The orchestrator: one turn of the loop *)

Section Orchestrator_facts.
Context `{Library}.

(** [parse_xml] raises nothing but [ValueError]. *)
Lemma parse_xml_raises xml_str e :
  parse_xml xml_str = Raise e → is_ValueError e = true.
Proof.
  unfold parse_xml. cbv zeta. destruct (utf8_encode xml_str) as [b|e'].
  - destruct (fromstring b); by intros [= <-].
  - by intros [= <-].
Qed.

Lemma process_entry_no_match test_data_map r ref_entry :
  truthy (test_data_map !! ref_id_of ref_entry) = None →
  print (warning_msg (ref_id_of ref_entry)) = Ok tt →
  process_entry test_data_map r ref_entry
  = Ok (mkReport
          (overview_results r
           ++ [py "test " ++ ref_id_of ref_entry ++ py " fail (No Match)"])
          (detailed_results r ++ [warning_msg (ref_id_of ref_entry)])).
Proof.
  intros Hno Hprint. unfold process_entry. cbv zeta. by rewrite Hno, Hprint.
Qed.

(** A record whose test record is found, whose two texts are cleaned
    and whose header is printed reaches the [try] block. *)
Lemma process_entry_cleaned test_data_map r ref_entry test_entry
    ref_xml_str test_xml_str :
  truthy (test_data_map !! ref_id_of ref_entry) = Some test_entry →
  clean_xml_string (dict_get ref_entry (py "Full MX-Message:") (PyStr []))
    = Ok ref_xml_str →
  clean_xml_string (dict_get test_entry (py "content") (PyStr []))
    = Ok test_xml_str →
  print (header_of ref_entry (test_title_of test_entry)) = Ok tt →
  process_entry test_data_map r ref_entry
  = let ref_id := ref_id_of ref_entry in
    let detailed :=
      detailed_results r
      ++ [header_of ref_entry (test_title_of test_entry)] in
    let attempt : result report :=
      diffs ← parse_and_compare ref_xml_str test_xml_str;
      match diffs with
      | [] =>
          _ ← print (pass_msg ref_id);
          Ok (mkReport
                (overview_results r ++ [py "test " ++ ref_id ++ py " pass"])
                (detailed ++ [pass_msg ref_id]))
      | _ =>
          _ ← print (fail_msg ref_id);
          Ok (mkReport
                (overview_results r ++ [py "test " ++ ref_id ++ py " fail"])
                (detailed ++ [fail_msg ref_id]
                 ++ map (λ d, py "   - " ++ render d) diffs ++ [[]]))
      end in
    match attempt with
    | Ok r' => Ok r'
    | Raise e =>
        if is_ValueError e then
          _ ← print (error_msg ref_id e);
          Ok (mkReport
                (overview_results r
                 ++ [py "test " ++ ref_id ++ py " fail (XML Error)"])
                (detailed ++ [error_msg ref_id e]))
        else Raise e
    end.
Proof.
  intros Hsome Href Htest Hprint. unfold process_entry. cbv zeta.
  rewrite Hsome, Href. cbn [mbind result_bind]. rewrite Htest.
  cbn [mbind result_bind]. rewrite Hprint. reflexivity.
Qed.

Lemma parse_and_compare_parsed ref_xml_str test_xml_str ref_xml test_xml :
  parse_xml ref_xml_str = Ok ref_xml →
  parse_xml test_xml_str = Ok test_xml →
  parse_and_compare ref_xml_str test_xml_str
  = compare_xml_node ref_xml test_xml.
Proof. intros Ha Hb. unfold parse_and_compare. by rewrite Ha, Hb. Qed.

(** A parse failure on either side is a [ValueError]. *)
Lemma parse_and_compare_failure ref_xml_str test_xml_str :
  (∃ e, parse_xml ref_xml_str = Raise e)
  ∨ (∃ e, parse_xml test_xml_str = Raise e) →
  ∃ e, parse_and_compare ref_xml_str test_xml_str = Raise e
       ∧ is_ValueError e = true.
Proof.
  unfold parse_and_compare. intros [[e He]|[e He]].
  - rewrite He. exists e. split; [done|]. by eapply parse_xml_raises.
  - destruct (parse_xml ref_xml_str) as [a|e'] eqn:Ha; cbn.
    + rewrite He. exists e. split; [done|]. by eapply parse_xml_raises.
    + exists e'. split; [done|]. by eapply parse_xml_raises.
Qed.

Lemma process_entries_cons test_data_map r r' ref_entry ref_data :
  process_entry test_data_map r ref_entry = Ok r' →
  process_entries test_data_map r (ref_entry :: ref_data)
  = process_entries test_data_map r' ref_data.
Proof. intros Hr. cbn. by rewrite Hr. Qed.

Lemma pass_line_not_fail_line (overview : list pystr) ref_id :
  overview ++ [py "test " ++ ref_id ++ py " fail"]
  ≠ overview ++ [py "test " ++ ref_id ++ py " pass"].
Proof.
  intros Heq. apply app_inv_head in Heq. injection Heq as Heq.
  apply app_inv_head in Heq. discriminate.
Qed.
End Orchestrator_facts.

(** C5: for a reference record whose test record is found, whose two
    normalised texts parse and whose lines the standard output can
    write, the turn of the loop appends the overview line
    [test <id> pass] exactly when [compare_xml] returns no message; when
    it returns messages the turn appends [test <id> fail] and, after the
    header and the status line, one detail line per message.  When
    [compare_xml] raises (it met a node that is no element), the
    exception is not caught and the turn appends nothing. *)
Theorem pass_iff_no_diffs `{Library} test_data_map r ref_entry test_entry
    ref_xml_str test_xml_str ref_xml test_xml :
  truthy (test_data_map !! ref_id_of ref_entry) = Some test_entry →
  clean_xml_string (dict_get ref_entry (py "Full MX-Message:") (PyStr []))
    = Ok ref_xml_str →
  clean_xml_string (dict_get test_entry (py "content") (PyStr []))
    = Ok test_xml_str →
  parse_xml ref_xml_str = Ok ref_xml →
  parse_xml test_xml_str = Ok test_xml →
  let ref_id := ref_id_of ref_entry in
  let header := header_of ref_entry (test_title_of test_entry) in
  print header = Ok tt →
  print (pass_msg ref_id) = Ok tt →
  print (fail_msg ref_id) = Ok tt →
  (compare_xml_node ref_xml test_xml = Ok [] →
   process_entry test_data_map r ref_entry
   = Ok (mkReport
           (overview_results r ++ [py "test " ++ ref_id ++ py " pass"])
           (detailed_results r ++ [header; pass_msg ref_id])))
  ∧ (∀ diffs,
       compare_xml_node ref_xml test_xml = Ok diffs → diffs ≠ [] →
       process_entry test_data_map r ref_entry
       = Ok (mkReport
               (overview_results r ++ [py "test " ++ ref_id ++ py " fail"])
               (detailed_results r ++ [header; fail_msg ref_id]
                ++ map (λ d, py "   - " ++ render d) diffs ++ [[]])))
  ∧ (∀ e,
       compare_xml_node ref_xml test_xml = Raise e →
       process_entry test_data_map r ref_entry = Raise e)
  ∧ (∀ r',
       process_entry test_data_map r ref_entry = Ok r' →
       (overview_results r'
        = overview_results r ++ [py "test " ++ ref_id ++ py " pass"]
        ↔ compare_xml_node ref_xml test_xml = Ok [])).
Proof.
  intros Hsome Href Htest Hpa Hpb ref_id header Hheader Hpass Hfail.
  rewrite (process_entry_cleaned _ _ _ _ _ _ Hsome Href Htest Hheader).
  rewrite (parse_and_compare_parsed _ _ _ _ Hpa Hpb). cbv zeta.
  fold ref_id header.
  destruct (compare_xml_node ref_xml test_xml) as [[|d ds]|e] eqn:Hcmp;
    cbn [mbind result_bind].
  - rewrite Hpass. cbn [mbind result_bind]. rewrite <- app_assoc.
    split; [done|]. split; [by intros ? [= <-]|]. split; [done|].
    by intros r' [= <-].
  - rewrite Hfail. cbn [mbind result_bind]. rewrite <- !app_assoc.
    split; [done|]. split; [by intros ? [= <-] _|]. split; [done|].
    intros r' [= <-]. cbn [overview_results]. split; [|done].
    intros Heq. by apply pass_line_not_fail_line in Heq.
  - apply compare_xml_node_raises in Hcmp as ->. cbn [is_ValueError].
    split; [done|]. split; [done|]. split; [by intros ? [= <-]|]. done.
Qed.

Lemma pass_iff_no_diffs_witness :
  @process_entry (example_library example_documents)
    (build_test_data_map [test_record "7" "<Msg><Amt>20</Amt></Msg>"])
    (mkReport [] [])
    (reference_record 7 "<Msg><Amt>10</Amt></Msg>")
  = Ok (mkReport
          [py "test 7 fail"]
          [@header_of (reference_record 7 "<Msg><Amt>10</Amt></Msg>") (py "7");
           [0x274C%N] ++ py " Differences found for #7:";
           py "   - Value mismatch at /Msg/Amt: '10' != '20'";
           []]).
Proof.
  destruct (@pass_iff_no_diffs (example_library example_documents)
              (build_test_data_map [test_record "7" "<Msg><Amt>20</Amt></Msg>"])
              (mkReport [] [])
              (reference_record 7 "<Msg><Amt>10</Amt></Msg>")
              (test_record "7" "<Msg><Amt>20</Amt></Msg>")
              (py "<Msg><Amt>10</Amt></Msg>") (py "<Msg><Amt>20</Amt></Msg>")
              (of_element (msg_amt "10")) (of_element (msg_amt "20"))
              ltac:(vm_compute; reflexivity) ltac:(vm_compute; reflexivity)
              ltac:(vm_compute; reflexivity) ltac:(vm_compute; reflexivity)
              ltac:(vm_compute; reflexivity) ltac:(vm_compute; reflexivity)
              ltac:(vm_compute; reflexivity) ltac:(vm_compute; reflexivity))
    as (_ & Hfail & _).
  rewrite (Hfail _ ltac:(vm_compute; reflexivity))
    by (vm_compute; discriminate).
  vm_compute. reflexivity.
Defined.

(** C10 (the code raises): the two documents hold a comment and differ
    in the text after [</Amt>] only.  The children of [Msg] are the
    comment and [Amt]; the first pair [zip] gives is the two comments,
    whose [tag] is no string: [strip_namespace] raises [AttributeError]
    at line 104.  The handler of line 209 catches [ValueError] only, so
    the exception leaves [process_comparison]: the pair gets no
    overview line. *)
Theorem tails_differ_beside_comment_raises :
  erase_tails_node (msg_with_comment None)
  = erase_tails_node (msg_with_comment (Some (py "!")))
  ∧ @compare_xml_node commented_library
      (msg_with_comment None) (msg_with_comment (Some (py "!")))
    = Raise (AttributeError (@no_attribute_text commented_library))
  ∧ @process_comparison commented_library
      [reference_record 7 "<Msg><!--note--><Amt>10</Amt></Msg>"]
      [test_record "7" "<Msg><!--note--><Amt>10</Amt>!</Msg>"]
    = Raise (AttributeError (@no_attribute_text commented_library)).
Proof. repeat split; vm_compute; reflexivity. Qed.

(** ** Strings: [startswith] and [find] *)

Lemma startswith_nil s : startswith s [] = true.
Proof. by destruct s. Qed.

Lemma startswith_single s c : startswith s [c] = true ↔ head s = Some c.
Proof.
  destruct s as [|c' s]; cbn; [done|].
  rewrite startswith_nil, andb_true_r, N.eqb_eq. naive_solver.
Qed.

Lemma startswith_app s prefix :
  startswith s prefix = true ↔ ∃ rest, s = prefix ++ rest.
Proof.
  revert s. induction prefix as [|p prefix IH]; intros s.
  - rewrite startswith_nil. split; [by exists s|done].
  - destruct s as [|c s]; cbn.
    + split; [done|]. by intros [rest ?].
    + rewrite andb_true_iff, N.eqb_eq, IH. split.
      * intros [-> [rest ->]]. by exists rest.
      * intros [rest [= -> ->]]. split; [done|]. by exists rest.
Qed.

(** [find_from] returns the first place where [sub] starts. *)
Lemma find_from_Some sub s i j :
  find_from sub s i = Some j →
  ∃ k, j = i + k ∧ k ≤ length s
       ∧ startswith (drop k s) sub = true
       ∧ ∀ k', k' < k → startswith (drop k' s) sub = false.
Proof.
  revert i. induction s as [|c s IH]; intros i; cbn [find_from].
  - destruct (startswith [] sub) eqn:Hs; [|done].
    intros [= <-]. exists 0. repeat split; [lia|done|done|lia].
  - destruct (startswith (c :: s) sub) eqn:Hs.
    + intros [= <-]. exists 0. repeat split; [lia|cbn; lia|done|lia].
    + intros (k & -> & Hk & Hat & Hbefore)%IH.
      exists (S k). repeat split; [lia|cbn; lia|done|].
      intros [|k'] Hlt; [done|]. cbn. apply Hbefore. lia.
Qed.

Lemma find_from_None sub s i :
  find_from sub s i = None → ∀ k, startswith (drop k s) sub = false.
Proof.
  revert i. induction s as [|c s IH]; intros i; cbn [find_from].
  - destruct (startswith [] sub) eqn:Hs; [done|].
    intros _ k. by rewrite drop_nil.
  - destruct (startswith (c :: s) sub) eqn:Hs; [done|].
    intros Hnone [|k]; [done|]. cbn. by eapply IH.
Qed.

Lemma startswith_single_elem_of s c k :
  startswith (drop k s) [c] = true → c ∈ s.
Proof.
  rewrite startswith_single. intros Hh.
  destruct (drop k s) as [|c' r] eqn:Hd; [done|]. injection Hh as ->.
  rewrite <- (take_drop k s), Hd. set_solver.
Qed.

Lemma not_startswith_single_not_elem_of s c :
  (∀ k, startswith (drop k s) [c] = false) → c ∉ s.
Proof.
  intros Hno [k Hk]%list_elem_of_lookup.
  specialize (Hno k). apply not_true_iff_false in Hno. apply Hno.
  apply startswith_single.
  rewrite head_lookup, lookup_drop, Nat.add_0_r. exact Hk.
Qed.

(** ** The normaliser: what it returns *)

Section Normaliser_facts.
Context `{Library}.

Lemma clean_xml_string_str raw :
  clean_xml_string (PyStr raw)
  = (text ← unescape_backslashes raw;
     text ← html_unescape text;
     Ok (steps_3_to_6 text)).
Proof. reflexivity. Qed.

Lemma clean_xml_string_not_str raw :
  (∀ s, raw ≠ PyStr s) → clean_xml_string raw = Ok [].
Proof. intros Hns. destruct raw; try reflexivity. by destruct (Hns s). Qed.

(** The normaliser returns exactly when steps 1 and 2 do. *)
Lemma clean_xml_string_returns raw text1 text2 :
  unescape_backslashes raw = Ok text1 →
  html_unescape text1 = Ok text2 →
  clean_xml_string (PyStr raw) = Ok (steps_3_to_6 text2).
Proof.
  intros H1 H2. rewrite clean_xml_string_str, H1. cbn. by rewrite H2.
Qed.

Lemma clean_xml_string_inv raw s :
  clean_xml_string (PyStr raw) = Ok s →
  ∃ text1 text2,
    unescape_backslashes raw = Ok text1
    ∧ html_unescape text1 = Ok text2
    ∧ s = steps_3_to_6 text2.
Proof.
  rewrite clean_xml_string_str.
  destruct (unescape_backslashes raw) as [text1|e]; cbn; [|done].
  destruct (html_unescape text1) as [text2|e] eqn:H2; cbn; [|done].
  intros [= <-]. by exists text1, text2.
Qed.

(** Lines 71-73: the text starts at its first [<], if it has one. *)
Lemma isolate_xml_shape text :
  head (isolate_xml text) = Some c_lt ∨ c_lt ∉ isolate_xml text.
Proof.
  unfold isolate_xml, from_first_lt. generalize (trim_preamble text).
  intros t. unfold find. rewrite drop_0.
  destruct (find_from (py "<") t 0) as [start|] eqn:Hfind.
  - left. apply find_from_Some in Hfind as (k & -> & _ & Hat & _).
    by apply startswith_single.
  - right. eapply not_startswith_single_not_elem_of, find_from_None, Hfind.
Qed.
End Normaliser_facts.

(** C4 (as stated) fails: a text without [<] is returned as it is, so a
    returned string may neither be empty nor start with [<]. *)
Lemma text_without_lt_returned_as_is :
  (∀ L : Library, @clean_xml_string L (PyStr (py "hello")) = Ok (py "hello"))
  ∧ py "hello" ≠ [] ∧ head (py "hello") ≠ Some c_lt.
Proof. split; [intros L; vm_compute; reflexivity|]. split; discriminate. Qed.

(** C4 (amended): a string returned by [clean_xml_string] either starts
    with [<] or contains no [<] at all; it is empty for an input that
    is not a string. *)
Theorem clean_xml_string_shape `{Library} raw s :
  clean_xml_string raw = Ok s →
  (head s = Some c_lt ∨ c_lt ∉ s)
  ∧ ((∀ str, raw ≠ PyStr str) → s = []).
Proof.
  intros Hret. split.
  - destruct raw as [| | |str|];
      try (injection Hret as <-; right; apply not_elem_of_nil).
    apply clean_xml_string_inv in Hret as (t1 & t2 & _ & _ & ->).
    apply isolate_xml_shape.
  - intros Hns. rewrite (clean_xml_string_not_str _ Hns) in Hret. congruence.
Qed.

Lemma clean_xml_string_shape_witness :
  let s := py "<a version=" ++ [c_quote] ++ py "1.0" ++ [c_quote]
           ++ py "><b>x</b></a>" in
  head s = Some c_lt ∨ c_lt ∉ s.
Proof.
  refine (proj1 (@clean_xml_string_shape (example_library [])
                   (PyStr (py "junk <a version=1.0><b>x</b></a>  ")) _ _)).
  vm_compute. reflexivity.
Defined.

(** C2 (the code raises): a backslash that does not start a complete
    escape makes step 1 raise [UnicodeDecodeError], a lone surrogate
    makes it raise [UnicodeEncodeError]; an input that is not a string
    gives the empty string. *)
Theorem clean_xml_string_raises `{Library} :
  clean_xml_string (PyStr (py "<a>C:\Users</a>"))
  = Raise (UnicodeDecodeError (decode_error_text (py "<a>C:\Users</a>")))
  ∧ clean_xml_string (PyStr [0xD800%N])
    = Raise (UnicodeEncodeError (encode_error_text [0xD800%N]))
  ∧ ∀ raw, (∀ s, raw ≠ PyStr s) → clean_xml_string raw = Ok [].
Proof.
  split; [vm_compute; reflexivity|]. split; [vm_compute; reflexivity|].
  apply clean_xml_string_not_str.
Qed.

(** ** The orchestrator: which failures stay within a record *)

Section Isolation.
Context `{Library}.

(** A reference id without a test record: once its line is printed it
    is appended and the loop goes on with the next record. *)
Lemma no_match_continues test_data_map r ref_entry ref_data :
  truthy (test_data_map !! ref_id_of ref_entry) = None →
  print (warning_msg (ref_id_of ref_entry)) = Ok tt →
  ∃ detail,
    process_entries test_data_map r (ref_entry :: ref_data)
    = process_entries test_data_map
        (mkReport
           (overview_results r
            ++ [py "test " ++ ref_id_of ref_entry ++ py " fail (No Match)"])
           (detailed_results r ++ [detail]))
        ref_data.
Proof.
  intros Hno Hprint. eexists. apply process_entries_cons.
  by apply process_entry_no_match.
Qed.

(** A parse failure on either side: once its lines are printed they
    are appended and the loop goes on with the next record. *)
Lemma parse_failure_continues test_data_map r ref_entry test_entry
    ref_xml_str test_xml_str ref_data :
  truthy (test_data_map !! ref_id_of ref_entry) = Some test_entry →
  clean_xml_string (dict_get ref_entry (py "Full MX-Message:") (PyStr []))
    = Ok ref_xml_str →
  clean_xml_string (dict_get test_entry (py "content") (PyStr []))
    = Ok test_xml_str →
  (∃ e, parse_xml ref_xml_str = Raise e)
  ∨ (∃ e, parse_xml test_xml_str = Raise e) →
  print (header_of ref_entry (test_title_of test_entry)) = Ok tt →
  (∀ e, print (error_msg (ref_id_of ref_entry) e) = Ok tt) →
  ∃ header detail,
    process_entries test_data_map r (ref_entry :: ref_data)
    = process_entries test_data_map
        (mkReport
           (overview_results r
            ++ [py "test " ++ ref_id_of ref_entry ++ py " fail (XML Error)"])
           (detailed_results r ++ [header; detail]))
        ref_data.
Proof.
  intros Hsome Href Htest [e [He Hv]]%parse_and_compare_failure Hheader Herr.
  do 2 eexists. apply process_entries_cons.
  rewrite (process_entry_cleaned _ _ _ _ _ _ Hsome Href Htest Hheader), He.
  cbv zeta. cbn [mbind result_bind]. rewrite Hv, Herr.
  cbn [mbind result_bind]. by rewrite <- app_assoc.
Qed.

(** What [clean_xml_string] raises is raised by the loop. *)
Lemma normaliser_failure_aborts test_data_map r ref_entry test_entry e
    ref_data :
  truthy (test_data_map !! ref_id_of ref_entry) = Some test_entry →
  clean_xml_string (dict_get ref_entry (py "Full MX-Message:") (PyStr []))
    = Raise e →
  process_entries test_data_map r (ref_entry :: ref_data) = Raise e.
Proof.
  intros Hsome Href. cbn [process_entries]. unfold process_entry. cbv zeta.
  by rewrite Hsome, Href.
Qed.
End Isolation.

(** C7 (the code aborts the batch): the first record carries a Windows
    path, whose [\U] is no complete escape; [clean_xml_string] raises
    [UnicodeDecodeError] before the [try] of line 190, the exception
    leaves [process_comparison], and no line is produced for either
    record. *)
Theorem batch_aborted_by_normaliser `{Library} :
  process_comparison
    [reference_record 1 "<Msg>C:\Users</Msg>";
     reference_record 2 "<Msg><Amt>10</Amt></Msg>"]
    [test_record "1" "<Msg>C:\Users</Msg>";
     test_record "2" "<Msg><Amt>10</Amt></Msg>"]
  = Raise (UnicodeDecodeError (decode_error_text (py "<Msg>C:\Users</Msg>"))).
Proof. vm_compute. reflexivity. Qed.

(** ** Step 3 removes characters *)

Lemma replace_single_filter s c :
  replace s [c] [] = filter (λ x, x ≠ c) s.
Proof.
  unfold replace. induction s as [|x s IH]; [reflexivity|].
  cbn [replace_from startswith length Nat.sub app].
  rewrite startswith_nil, andb_true_r.
  destruct (N.eqb_spec x c) as [->|Hne].
  - rewrite filter_cons_False by (intros Hn; by apply Hn). exact IH.
  - rewrite filter_cons_True by done. by rewrite IH.
Qed.

(** Halving the doubled quotes first does not change what is left
    once every quote is removed. *)
Lemma filter_replace_doubled_quotes skip s :
  skip ≤ 1 →
  (skip = 1 → head s = Some c_quote) →
  filter (λ x, x ≠ c_quote)
         (replace_from [c_quote; c_quote] [c_quote] skip s)
  = filter (λ x, x ≠ c_quote) s.
Proof.
  revert skip. induction s as [|x s IH]; intros skip Hle Hhead;
    [reflexivity|].
  destruct skip as [|skip].
  - cbn [replace_from length Nat.sub].
    destruct (startswith (x :: s) [c_quote; c_quote]) eqn:Hs.
    + apply startswith_app in Hs as [rest [= -> ->]]. cbn [app].
      rewrite !filter_cons_False by (intros Hn; by apply Hn).
      rewrite (IH 1) by done.
      by rewrite filter_cons_False by (intros Hn; by apply Hn).
    + destruct (decide (x = c_quote)) as [->|Hne].
      * rewrite !filter_cons_False by (intros Hn; by apply Hn).
        by apply IH.
      * rewrite !filter_cons_True by done. by rewrite IH.
  - injection (Hhead ltac:(lia)) as ->. cbn [replace_from].
    rewrite filter_cons_False by (intros Hn; by apply Hn).
    apply IH; [lia|]. intros ->. lia.
Qed.

Lemma remove_quotes_filter s :
  replace (replace s [c_quote; c_quote] [c_quote]) [c_quote] []
  = filter (λ x, x ≠ c_quote) s.
Proof.
  rewrite replace_single_filter. unfold replace.
  apply (filter_replace_doubled_quotes 0); [lia|done].
Qed.

Lemma filter_ne_id (c : N) (s : pystr) :
  c ∉ s → filter (λ x, x ≠ c) s = s.
Proof.
  induction s as [|x s IH]; [done|]. rewrite not_elem_of_cons.
  intros [Hne Hnin]. rewrite filter_cons_True by done. by rewrite IH.
Qed.

Lemma not_elem_of_filter_ne (c : N) (s : pystr) :
  c ∉ filter (λ x, x ≠ c) s.
Proof. rewrite list_elem_of_filter. by intros [Hne _]. Qed.

(** ** Step 4: the pattern and the characters it cannot run over *)

Lemma span_app (p : N → bool) s a b :
  span p s = (a, b) → s = a ++ b.
Proof.
  revert a b. induction s as [|c s IH]; intros a b; cbn.
  - by intros [= <- <-].
  - destruct (p c); [|by intros [= <- <-]].
    destruct (span p s) as [a' b']. intros [= <- <-].
    by rewrite (IH a' b' eq_refl).
Qed.

Lemma span_cons_inv (p : N → bool) s c a b :
  span p s = (c :: a, b) → ∃ s', s = c :: s'.
Proof.
  destruct s as [|c' s]; cbn; [done|].
  destruct (p c'); [|done]. destruct (span p s). intros [= -> _ _]. eauto.
Qed.

Lemma span_barrier (p : N → bool) x b y :
  p b = false →
  span p (x ++ b :: y) = ((span p x).1, (span p x).2 ++ b :: y).
Proof.
  intros Hb. induction x as [|c x IH]; cbn.
  - by rewrite Hb.
  - destruct (p c); [|done]. rewrite IH. by destruct (span p x).
Qed.

Section Quote_attrs.
Context `{Library}.

Lemma match_attr_Some s name value :
  match_attr s = Some (name, value) →
  ∃ c name' rest,
    name = c :: name' ∧ s = name ++ c_equals :: value ++ rest.
Proof.
  unfold match_attr.
  destruct (span is_word s) as [[|c name'] [|e r]] eqn:Hw; try done.
  destruct (N.eqb_spec e c_equals) as [->|]; [|done].
  destruct (span is_value r) as [[|v value'] rest] eqn:Hv; [done|].
  intros [= <- <-]. exists c, name', rest. split; [done|].
  by rewrite (span_app _ _ _ _ Hw), (span_app _ _ _ _ Hv).
Qed.

Lemma is_barrier_spec c :
  is_barrier c = true →
  is_word c = false ∧ is_value c = false ∧ c ≠ c_equals.
Proof.
  unfold is_barrier. rewrite andb_true_iff, !negb_true_iff, N.eqb_neq.
  intros [Hv Hne]. split; [|done].
  unfold is_value in Hv. by do 4 apply orb_false_elim in Hv as [Hv _].
Qed.

Lemma match_attr_barrier x b y :
  is_barrier b = true → match_attr (x ++ b :: y) = match_attr x.
Proof.
  intros (Hw & Hv & Hne)%is_barrier_spec. unfold match_attr.
  rewrite (span_barrier is_word) by done.
  destruct (span is_word x) as [[|c name] [|e r]]; cbn [fst snd app];
    try reflexivity.
  - by rewrite (proj2 (N.eqb_neq b c_equals)).
  - destruct (e =? c_equals)%N; [|reflexivity].
    rewrite (span_barrier is_value) by done.
    by destruct (span is_value r) as [[|v value] rest].
Qed.

(** The substitution does not run over a barrier. *)
Lemma quote_attrs_from_barrier skip x b y :
  is_barrier b = true →
  skip ≤ length x →
  quote_attrs_from skip (x ++ b :: y)
  = quote_attrs_from skip x ++ b :: quote_attrs y.
Proof.
  intros Hb. revert skip.
  induction x as [|c x IH]; intros skip Hskip.
  - assert (skip = 0) as -> by (cbn in Hskip; lia).
    cbn [app quote_attrs_from].
    pose proof (match_attr_barrier [] b y Hb) as Hm. cbn [app] in Hm.
    rewrite Hm. reflexivity.
  - destruct skip as [|skip]; cbn [app quote_attrs_from].
    + change (c :: x ++ b :: y) with ((c :: x) ++ b :: y).
      rewrite (match_attr_barrier (c :: x) b y Hb).
      destruct (match_attr (c :: x)) as [[name value]|] eqn:Hm.
      * apply match_attr_Some in Hm as (c' & name' & rest & -> & Heq).
        injection Heq as <- ->.
        rewrite IH; [by list_simplifier|].
        rewrite !length_app. cbn. rewrite !length_app. lia.
      * by rewrite IH by lia.
    + apply IH. cbn in Hskip. lia.
Qed.

Lemma quote_attrs_barrier x b y :
  is_barrier b = true →
  quote_attrs (x ++ b :: y) = quote_attrs x ++ b :: quote_attrs y.
Proof. intros Hb. apply quote_attrs_from_barrier; [done|lia]. Qed.

Lemma quote_attrs_barrier_cons b y :
  is_barrier b = true → quote_attrs (b :: y) = b :: quote_attrs y.
Proof. intros Hb. apply (quote_attrs_barrier [] b y Hb). Qed.

(** Removing the quotes undoes the substitution on a text that had
    none. *)
Lemma filter_quote_attrs_from skip x :
  c_quote ∉ x →
  filter (λ c, c ≠ c_quote) (quote_attrs_from skip x) = drop skip x.
Proof.
  revert skip. induction x as [|c x IH]; intros skip Hq.
  - by destruct skip.
  - apply not_elem_of_cons in Hq as [Hc Hq].
    destruct skip as [|skip]; cbn [quote_attrs_from drop]; [|by apply IH].
    destruct (match_attr (c :: x)) as [[name value]|] eqn:Hm.
    + apply match_attr_Some in Hm as (c' & name' & rest & -> & Heq).
      injection Heq as <- ->.
      assert ((c_quote ∉ name') ∧ (c_quote ∉ value)) as [Hname Hvalue].
      { rewrite !not_elem_of_app, not_elem_of_cons, not_elem_of_app in Hq.
        by destruct Hq as (? & _ & ? & _). }
      rewrite !filter_app, (IH _ Hq).
      rewrite (filter_ne_id c_quote (c :: name'))
        by (apply not_elem_of_cons; by split).
      rewrite (filter_ne_id c_quote value) by done.
      assert (filter (λ c, c ≠ c_quote) [c_equals; c_quote] = [c_equals])
        as -> by reflexivity.
      assert (filter (λ c, c ≠ c_quote) [c_quote] = []) as ->
        by reflexivity.
      replace (length (c :: name') + length value)
        with (length name' + S (length value)) by (cbn [length]; lia).
      rewrite drop_app_add. cbn [drop app]. by rewrite drop_app_length.
    + rewrite filter_cons_True by done. by rewrite IH.
Qed.

Lemma filter_quote_attrs x :
  c_quote ∉ x → filter (λ c, c ≠ c_quote) (quote_attrs x) = x.
Proof. intros Hq. unfold quote_attrs. by rewrite filter_quote_attrs_from. Qed.

(** Every character of the result is a character of the text or a
    quote. *)
Lemma elem_of_quote_attrs x c :
  c_quote ∉ x → c ∈ quote_attrs x → c = c_quote ∨ c ∈ x.
Proof.
  intros Hq Hin. destruct (decide (c = c_quote)) as [|Hne]; [by left|].
  right. rewrite <- (filter_quote_attrs x Hq).
  by apply list_elem_of_filter.
Qed.
End Quote_attrs.

(** ** Step 5: [strip] *)

Lemma lstrip_head s c : head (lstrip s) = Some c → isspace c = false.
Proof.
  induction s as [|x s IH]; cbn; [done|].
  destruct (isspace x) eqn:Hx; [done|]. cbn. by intros [= <-].
Qed.

Lemma lstrip_id s :
  (∀ c, head s = Some c → isspace c = false) → lstrip s = s.
Proof.
  destruct s as [|x s]; [done|]. intros Hh. cbn. by rewrite (Hh x).
Qed.

Lemma lstrip_suffix s : ∃ spaces, s = spaces ++ lstrip s.
Proof.
  induction s as [|x s [spaces IH]]; [by exists []|]. cbn.
  destruct (isspace x); [|by exists []].
  exists (x :: spaces). cbn. by rewrite <- IH.
Qed.

Lemma lstrip_last s c : last (lstrip s) = Some c → last s = Some c.
Proof.
  destruct (lstrip_suffix s) as [spaces Hs]. intros Hl.
  rewrite Hs, last_app, Hl. done.
Qed.

Lemma rstrip_snoc s c :
  rstrip (s ++ [c]) = if isspace c then rstrip s else s ++ [c].
Proof.
  unfold rstrip. rewrite reverse_snoc. cbn [lstrip].
  destruct (isspace c); [done|]. by rewrite reverse_cons, reverse_involutive.
Qed.

Lemma rstrip_last s c : last (rstrip s) = Some c → isspace c = false.
Proof. unfold rstrip. rewrite last_reverse. apply lstrip_head. Qed.

Lemma rstrip_id s :
  (∀ c, last s = Some c → isspace c = false) → rstrip s = s.
Proof.
  intros Hl. unfold rstrip. rewrite lstrip_id, reverse_involutive; [done|].
  intros c. rewrite head_reverse. apply Hl.
Qed.

Lemma rstrip_prefix s : ∃ spaces, s = rstrip s ++ spaces.
Proof.
  unfold rstrip. destruct (lstrip_suffix (reverse s)) as [spaces Hs].
  exists (reverse spaces).
  by rewrite <- reverse_app, <- Hs, reverse_involutive.
Qed.

Lemma rstrip_head s c : head (rstrip s) = Some c → head s = Some c.
Proof.
  destruct (rstrip_prefix s) as [spaces Hs]. intros Hh.
  rewrite Hs, head_app, Hh. done.
Qed.

Lemma strip_head s c : head (strip s) = Some c → isspace c = false.
Proof. intros Hh%rstrip_head. by eapply lstrip_head. Qed.

Lemma strip_last s c : last (strip s) = Some c → isspace c = false.
Proof. apply rstrip_last. Qed.

Lemma strip_id s :
  (∀ c, head s = Some c → isspace c = false) →
  (∀ c, last s = Some c → isspace c = false) →
  strip s = s.
Proof. intros Hh Hl. unfold strip. by rewrite lstrip_id, rstrip_id. Qed.

Lemma strip_subseteq s : strip s ⊆ s.
Proof.
  unfold strip. destruct (rstrip_prefix (lstrip s)) as [after Ha].
  destruct (lstrip_suffix s) as [before Hb].
  intros c Hc. rewrite Hb, Ha. set_solver.
Qed.

Section Strip_quote_attrs.
Context `{Library}.

Lemma isspace_barrier c : isspace c = true → is_barrier c = true.
Proof.
  intros Hs. unfold is_barrier, is_value, is_word, c_equals.
  destruct (c <? 128)%N eqn:Hc.
  - apply N.ltb_lt in Hc. unfold isspace, in_range in Hs.
    rewrite !orb_true_iff, !andb_true_iff, !N.leb_le, !N.eqb_eq in Hs.
    unfold ascii_alnum, is_digit, in_range.
    rewrite andb_true_iff, !negb_true_iff, !orb_false_iff,
      !andb_false_iff, !N.leb_gt, !N.eqb_neq.
    lia.
  - apply N.ltb_ge in Hc. rewrite (uni_alnum_space c Hs).
    rewrite andb_true_iff, !negb_true_iff, !orb_false_iff, !N.eqb_neq.
    lia.
Qed.

Lemma quote_attrs_head c x : ∃ rest, quote_attrs (c :: x) = c :: rest.
Proof.
  unfold quote_attrs. cbn [quote_attrs_from].
  destruct (match_attr (c :: x)) as [[name value]|] eqn:Hm; [|by eexists].
  apply match_attr_Some in Hm as (c' & name' & rest & -> & [= <- _]).
  by eexists.
Qed.

Lemma lstrip_quote_attrs x : lstrip (quote_attrs x) = quote_attrs (lstrip x).
Proof.
  induction x as [|c x IH]; [done|]. cbn [lstrip].
  destruct (isspace c) eqn:Hc.
  - rewrite (quote_attrs_barrier_cons c x (isspace_barrier c Hc)).
    cbn [lstrip]. by rewrite Hc.
  - destruct (quote_attrs_head c x) as [rest ->]. cbn [lstrip].
    by rewrite Hc.
Qed.

Lemma quote_attrs_last x c :
  c_quote ∉ x →
  last (quote_attrs x) = Some c → c = c_quote ∨ last x = Some c.
Proof.
  intros Hq [l Hl]%last_Some.
  destruct (decide (c = c_quote)) as [|Hne]; [by left|]. right.
  rewrite <- (filter_quote_attrs x Hq), Hl, filter_app.
  rewrite filter_cons_True by done. apply last_snoc.
Qed.

Lemma rstrip_quote_attrs x :
  c_quote ∉ x → rstrip (quote_attrs x) = quote_attrs (rstrip x).
Proof.
  induction x as [|c x IH] using rev_ind; [done|]. intros Hq.
  rewrite rstrip_snoc. destruct (isspace c) eqn:Hc.
  - rewrite (quote_attrs_barrier x c [] (isspace_barrier c Hc)).
    change (quote_attrs []) with (@nil N).
    rewrite rstrip_snoc, Hc. apply IH.
    intros Hin. apply Hq, elem_of_app. by left.
  - apply rstrip_id. intros c' [->|Hl]%quote_attrs_last; [done| |done].
    rewrite last_snoc in Hl. by injection Hl as <-.
Qed.

Lemma strip_quote_attrs x :
  c_quote ∉ x → strip (quote_attrs x) = quote_attrs (strip x).
Proof.
  intros Hq. unfold strip.
  rewrite lstrip_quote_attrs, rstrip_quote_attrs; [done|].
  destruct (lstrip_suffix x) as [spaces Hs]. intros Hin. apply Hq.
  rewrite Hs, elem_of_app. by right.
Qed.
End Strip_quote_attrs.

(** ** Steps 5 and 6: finding [?>] and [<] *)

Lemma find_from_none sub s i :
  (∀ k, startswith (drop k s) sub = false) → find_from sub s i = None.
Proof.
  revert i. induction s as [|c s IH]; intros i Hno; cbn [find_from].
  - by rewrite (Hno 0 : startswith [] sub = false).
  - rewrite (Hno 0 : startswith (c :: s) sub = false).
    apply IH. intros k. apply (Hno (S k)).
Qed.

Lemma find_from_lt_app p r i :
  c_lt ∉ p → find_from (py "<") (p ++ c_lt :: r) i = Some (i + length p).
Proof.
  revert i. induction p as [|x p IH]; intros i Hp.
  - cbn [app find_from length].
    assert (startswith (c_lt :: r) (py "<") = true) as ->
      by (apply startswith_app; by exists r).
    f_equal. lia.
  - apply not_elem_of_cons in Hp as [Hx Hp]. cbn [app find_from].
    assert (startswith (x :: p ++ c_lt :: r) (py "<") = false) as ->.
    { apply not_true_iff_false. intros [= ->]%startswith_single.
      by apply Hx. }
    rewrite IH by done. cbn [length]. f_equal. lia.
Qed.

Lemma find_from_lt_split s i j :
  find_from (py "<") s i = Some j →
  ∃ p r, s = p ++ c_lt :: r ∧ (c_lt ∉ p) ∧ j = i + length p.
Proof.
  revert i. induction s as [|c s IH]; intros i; cbn [find_from]; [done|].
  destruct (startswith (c :: s) (py "<")) eqn:Hs.
  - intros [= <-]. apply startswith_app in Hs as [rest [= -> ->]].
    exists [], rest. split; [done|]. split; [apply not_elem_of_nil|cbn; lia].
  - intros (p & r & -> & Hp & ->)%IH. exists (c :: p), r.
    split; [done|]. split; [|cbn; lia].
    apply not_elem_of_cons. split; [|done]. intros <-.
    apply not_true_iff_false in Hs. apply Hs. by apply startswith_single.
Qed.

Lemma find_from_lt_None s i : find_from (py "<") s i = None ↔ c_lt ∉ s.
Proof.
  split.
  - intros Hn. eapply not_startswith_single_not_elem_of, find_from_None, Hn.
  - intros Hs. apply find_from_none. intros k.
    destruct (startswith (drop k s) (py "<")) eqn:Hk; [|done].
    by apply startswith_single_elem_of in Hk.
Qed.

Lemma startswith_declaration_prefix c p r :
  startswith (c :: p ++ 63 :: 62 :: r)%N (py "?>")
  = startswith (c :: p ++ [63])%N (py "?>").
Proof.
  destruct p as [|y p]; cbn [app startswith py]; by rewrite ?startswith_nil.
Qed.

Lemma no_declaration_end_tail c s :
  no_declaration_end (c :: s) → no_declaration_end s.
Proof. intros Hno k. apply (Hno (S k)). Qed.

Lemma find_from_declaration_app p r i :
  no_declaration_end (p ++ [63%N]) →
  find_from (py "?>") (p ++ 63 :: 62 :: r)%N i = Some (i + length p).
Proof.
  revert i. induction p as [|x p IH]; intros i Hp.
  - cbn [app find_from length].
    assert (startswith (63 :: 62 :: r)%N (py "?>") = true) as ->
      by (apply startswith_app; by exists r).
    f_equal. lia.
  - cbn [app find_from]. rewrite startswith_declaration_prefix.
    rewrite (Hp 0 : startswith (x :: p ++ [63%N]) (py "?>") = false).
    rewrite IH by (by eapply no_declaration_end_tail).
    cbn [length]. f_equal. lia.
Qed.

Lemma find_from_declaration_split s i j :
  find_from (py "?>") s i = Some j →
  ∃ p r, s = (p ++ 63 :: 62 :: r)%N
         ∧ no_declaration_end (p ++ [63%N]) ∧ j = i + length p.
Proof.
  revert i. induction s as [|c s IH]; intros i; cbn [find_from]; [done|].
  destruct (startswith (c :: s) (py "?>")) eqn:Hs.
  - intros [= <-]. apply startswith_app in Hs as [rest [= -> ->]].
    exists [], rest. split; [done|]. split; [|cbn; lia].
    intros [|[|k]]; reflexivity.
  - intros (p & r & -> & Hp & ->)%IH. exists (c :: p), r.
    split; [done|]. split; [|cbn; lia].
    intros [|k]; [|apply Hp]. cbn [drop app].
    by rewrite <- (startswith_declaration_prefix c p r).
Qed.

Lemma declaration_end_filter w k :
  startswith (drop k w) (py "?>") = true →
  ∃ k', startswith (drop k' (filter (λ c, c ≠ c_quote) w)) (py "?>") = true.
Proof.
  intros [rest Hd]%startswith_app.
  exists (length (filter (λ c, c ≠ c_quote) (take k w))).
  rewrite <- (take_drop k w) at 2.
  rewrite Hd, filter_app, drop_app_length, filter_app.
  apply startswith_app. by eexists.
Qed.

Lemma take_app_two (p : pystr) a b r :
  take (length p + 2) (p ++ a :: b :: r) = p ++ [a; b].
Proof.
  rewrite take_app_ge, Nat.add_comm, Nat.add_sub by lia. reflexivity.
Qed.

Lemma drop_app_two (p : pystr) a b r :
  drop (length p + 2) (p ++ a :: b :: r) = r.
Proof. by rewrite drop_app_add. Qed.

Lemma subseteq_from_first_lt text : from_first_lt text ⊆ text.
Proof.
  unfold from_first_lt. destruct (find text (py "<") 0); [|done].
  apply subseteq_drop.
Qed.

Lemma subseteq_trim_preamble text : trim_preamble text ⊆ text.
Proof.
  unfold trim_preamble.
  destruct (find text (py "?>") 0) as [d|]; [|done].
  destruct (find text (py "<") (d + 2)) as [cs|]; [|done].
  intros c [Hc|Hc]%elem_of_app.
  - by eapply subseteq_take.
  - by eapply subseteq_drop.
Qed.

(** ** Steps 5 and 6 commute with step 4 on a text without quotes *)

Lemma drop_app_two_app (p : pystr) a b r1 c r2 :
  drop (length p + 2 + length r1) (p ++ a :: b :: r1 ++ c :: r2) = c :: r2.
Proof.
  rewrite <- Nat.add_assoc, drop_app_add. cbn [Nat.add drop].
  by rewrite drop_app_length.
Qed.

Section Isolate_quote_attrs.
Context `{Library}.

Lemma barrier_lt : is_barrier c_lt = true.
Proof. reflexivity. Qed.
Lemma barrier_question : is_barrier 63%N = true.
Proof. reflexivity. Qed.
Lemma barrier_gt : is_barrier 62%N = true.
Proof. reflexivity. Qed.

Lemma not_lt_quote_attrs x :
  c_quote ∉ x → c_lt ∉ x → c_lt ∉ quote_attrs x.
Proof. intros Hq Hlt [Heq|Hin]%elem_of_quote_attrs; done. Qed.

Lemma no_declaration_end_quote_attrs x :
  c_quote ∉ x → no_declaration_end x → no_declaration_end (quote_attrs x).
Proof.
  intros Hq Hno k.
  destruct (startswith (drop k (quote_attrs x)) (py "?>")) eqn:Hk; [|done].
  apply declaration_end_filter in Hk as [k' Hk'].
  rewrite (filter_quote_attrs x Hq) in Hk'. by rewrite (Hno k') in Hk'.
Qed.

Lemma quote_attrs_declaration p r :
  quote_attrs (p ++ 63 :: 62 :: r)%N
  = (quote_attrs p ++ 63 :: 62 :: quote_attrs r)%N.
Proof.
  rewrite (quote_attrs_barrier p _ _ barrier_question).
  by rewrite (quote_attrs_barrier_cons _ _ barrier_gt).
Qed.

Lemma from_first_lt_quote_attrs x :
  c_quote ∉ x →
  from_first_lt (quote_attrs x) = quote_attrs (from_first_lt x).
Proof.
  intros Hq. unfold from_first_lt, find. rewrite !drop_0.
  destruct (find_from (py "<") x 0) as [j|] eqn:Hf.
  - apply find_from_lt_split in Hf as (p & r & -> & Hp & ->).
    assert (c_quote ∉ p) as Hqp.
    { intros Hin. apply Hq, elem_of_app. by left. }
    rewrite (quote_attrs_barrier p c_lt r barrier_lt).
    rewrite find_from_lt_app by (by apply not_lt_quote_attrs).
    cbn [Nat.add]. rewrite !drop_app_length.
    by rewrite (quote_attrs_barrier_cons _ _ barrier_lt).
  - apply find_from_lt_None in Hf.
    by rewrite (proj2 (find_from_lt_None _ 0) (not_lt_quote_attrs x Hq Hf)).
Qed.

Lemma trim_preamble_quote_attrs x :
  c_quote ∉ x →
  trim_preamble (quote_attrs x) = quote_attrs (trim_preamble x).
Proof.
  intros Hq. unfold trim_preamble, find. rewrite !drop_0.
  destruct (find_from (py "?>") x 0) as [d|] eqn:Hd.
  - apply find_from_declaration_split in Hd as (p & r & Hx & Hp & ->).
    cbn [Nat.add].
    assert (c_quote ∉ p ++ [63%N]) as Hqp.
    { subst x. rewrite !not_elem_of_app, !not_elem_of_cons in *.
      destruct Hq as (? & ? & _). repeat split; [done..|].
      apply not_elem_of_nil. }
    assert (c_quote ∉ r) as Hqr.
    { subst x. rewrite !not_elem_of_app, !not_elem_of_cons in Hq.
      by destruct Hq as (_ & _ & _ & ?). }
    assert (quote_attrs x = quote_attrs p ++ 63 :: 62 :: quote_attrs r)%N
      as HQ by (subst x; apply quote_attrs_declaration).
    assert (find_from (py "?>") (quote_attrs x) 0
            = Some (length (quote_attrs p))) as ->.
    { rewrite HQ, find_from_declaration_app; [done|].
      pose proof (quote_attrs_barrier p _ [] barrier_question) as Hb.
      change (quote_attrs []) with (@nil N) in Hb. rewrite <- Hb.
      by apply no_declaration_end_quote_attrs. }
    rewrite HQ at 1. rewrite drop_app_two.
    rewrite Hx at 1. rewrite drop_app_two.
    destruct (find_from (py "<") r (length p + 2)) as [j|] eqn:Hc.
    + apply find_from_lt_split in Hc as (r1 & r2 & -> & Hr1 & ->).
      assert (c_quote ∉ r1) as Hqr1.
      { intros Hin. apply Hqr, elem_of_app. by left. }
      rewrite (quote_attrs_barrier r1 c_lt r2 barrier_lt) in *.
      rewrite find_from_lt_app by (by apply not_lt_quote_attrs).
      rewrite HQ, Hx, !take_app_two, !drop_app_two_app.
      rewrite (quote_attrs_barrier _ c_lt r2 barrier_lt).
      change (p ++ [63; 62])%N with (p ++ 63 :: 62 :: [])%N.
      by rewrite quote_attrs_declaration.
    + apply find_from_lt_None in Hc.
      by rewrite (proj2 (find_from_lt_None _ _)
                    (not_lt_quote_attrs r Hqr Hc)).
  - assert (find_from (py "?>") (quote_attrs x) 0 = None) as ->; [|done].
    apply find_from_none, no_declaration_end_quote_attrs; [done|].
    intros k. by eapply find_from_None.
Qed.

Lemma isolate_xml_quote_attrs x :
  c_quote ∉ x →
  isolate_xml (quote_attrs x) = quote_attrs (isolate_xml x).
Proof.
  intros Hq. unfold isolate_xml.
  rewrite trim_preamble_quote_attrs, from_first_lt_quote_attrs; [done| |done].
  intros Hin. by apply Hq, subseteq_trim_preamble.
Qed.
End Isolate_quote_attrs.

(** ** Steps 5 and 6 keep a text stripped *)

Lemma from_first_lt_head text c :
  (∀ c, head text = Some c → isspace c = false) →
  head (from_first_lt text) = Some c → isspace c = false.
Proof.
  intros Hh. unfold from_first_lt, find. rewrite drop_0.
  destruct (find_from (py "<") text 0) as [j|] eqn:Hf; [|apply Hh].
  apply find_from_lt_split in Hf as (p & r & -> & _ & ->).
  cbn [Nat.add]. rewrite drop_app_length. by intros [= <-].
Qed.

Lemma from_first_lt_last text :
  last (from_first_lt text) = last text.
Proof.
  unfold from_first_lt, find. rewrite drop_0.
  destruct (find_from (py "<") text 0) as [j|] eqn:Hf; [|done].
  apply find_from_lt_split in Hf as (p & r & -> & _ & ->).
  cbn [Nat.add]. by rewrite drop_app_length, last_app_cons.
Qed.

Lemma trim_preamble_head text : head (trim_preamble text) = head text.
Proof.
  unfold trim_preamble, find. rewrite drop_0.
  destruct (find_from (py "?>") text 0) as [d|] eqn:Hd; [|done].
  apply find_from_declaration_split in Hd as (p & r & -> & _ & ->).
  cbn [Nat.add]. rewrite drop_app_two, take_app_two.
  destruct (find_from (py "<") r (length p + 2)); [|done].
  by destruct p.
Qed.

Lemma trim_preamble_last text : last (trim_preamble text) = last text.
Proof.
  unfold trim_preamble, find. rewrite drop_0.
  destruct (find_from (py "?>") text 0) as [d|] eqn:Hd; [|done].
  apply find_from_declaration_split in Hd as (p & r & -> & _ & ->).
  cbn [Nat.add]. rewrite drop_app_two, take_app_two.
  destruct (find_from (py "<") r (length p + 2)) as [j|] eqn:Hc; [|done].
  apply find_from_lt_split in Hc as (r1 & r2 & -> & _ & ->).
  rewrite drop_app_two_app, last_app_cons.
  change (p ++ 63 :: 62 :: r1 ++ c_lt :: r2)%N
    with (p ++ [63; 62] ++ r1 ++ c_lt :: r2)%N.
  by rewrite !app_assoc, last_app_cons.
Qed.

Lemma strip_strip s : strip (strip s) = strip s.
Proof. apply strip_id; [apply strip_head|apply strip_last]. Qed.

Lemma isolate_xml_stripped text :
  strip text = text → strip (isolate_xml text) = isolate_xml text.
Proof.
  intros Hs. unfold isolate_xml. apply strip_id.
  - intros c. apply from_first_lt_head. intros c'.
    rewrite trim_preamble_head, <- Hs. apply strip_head.
  - intros c. rewrite from_first_lt_last, trim_preamble_last, <- Hs.
    apply strip_last.
Qed.

Lemma subseteq_isolate_xml text : isolate_xml text ⊆ text.
Proof.
  unfold isolate_xml. etrans; [apply subseteq_from_first_lt|].
  apply subseteq_trim_preamble.
Qed.

(** A text that starts at its first [<] and whose declaration is
    trimmed is left as it is by steps 5 and 6. *)
Lemma isolate_xml_id text :
  head text = Some c_lt ∨ c_lt ∉ text →
  declaration_trimmed text →
  isolate_xml text = text.
Proof.
  intros Hshape Htrim. unfold isolate_xml.
  assert (trim_preamble text = text) as ->.
  { unfold declaration_trimmed in Htrim. unfold trim_preamble.
    destruct (find text (py "?>") 0) as [d|]; [|done].
    destruct (find text (py "<") (d + 2)) as [cs|]; [|done].
    subst cs. apply take_drop. }
  unfold from_first_lt, find. rewrite drop_0. destruct Hshape as [Hh|Hno].
  - apply head_Some in Hh as [r ->].
    pose proof (find_from_lt_app [] r 0 (not_elem_of_nil _)) as Hf.
    cbn [app] in Hf. by rewrite Hf.
  - by rewrite (proj2 (find_from_lt_None text 0) Hno).
Qed.

(** ** Normalising a normalised text *)

Section Normalise_again.
Context `{Library}.

(** Steps 3 to 6 give the substitution of step 4 applied to a text
    without commas and quotes. *)
Lemma steps_3_to_6_quote_attrs text :
  ∃ y, steps_3_to_6 text = quote_attrs y
       ∧ (c_quote ∉ y) ∧ (c_comma ∉ y)
       ∧ strip (steps_3_to_6 text) = steps_3_to_6 text.
Proof.
  unfold steps_3_to_6. cbv zeta.
  rewrite remove_quotes_filter, replace_single_filter.
  set (x := filter (λ c, c ≠ c_quote) (filter (λ c, c ≠ c_comma) text)).
  assert (c_quote ∉ x) as Hq by apply not_elem_of_filter_ne.
  assert (c_comma ∉ x) as Hc.
  { unfold x. rewrite list_elem_of_filter.
    intros [_ Hin]. by apply not_elem_of_filter_ne in Hin. }
  assert (isolate_xml (strip x) ⊆ x) as Hsub.
  { etrans; [apply subseteq_isolate_xml|apply strip_subseteq]. }
  exists (isolate_xml (strip x)). split; [|split; [|split]].
  - rewrite strip_quote_attrs by done.
    apply isolate_xml_quote_attrs. intros Hin. by apply Hq, strip_subseteq.
  - intros Hin. by apply Hq, Hsub.
  - intros Hin. by apply Hc, Hsub.
  - apply isolate_xml_stripped, strip_strip.
Qed.

Lemma steps_3_to_6_again text :
  steps_3_to_6 (steps_3_to_6 text) = isolate_xml (steps_3_to_6 text).
Proof.
  destruct (steps_3_to_6_quote_attrs text) as (y & Hy & Hq & Hc & Hs).
  unfold steps_3_to_6 at 1. cbv zeta.
  rewrite remove_quotes_filter, replace_single_filter.
  rewrite (filter_ne_id c_comma).
  - rewrite Hy at 1. rewrite (filter_quote_attrs y Hq), <- Hy, Hs. done.
  - rewrite Hy. intros [|]%elem_of_quote_attrs; done.
Qed.
End Normalise_again.

(** C6 (as stated) fails: the text [<a>\x41</a>] is returned by
    [clean_xml_string] (for an input with a doubled backslash), it is a
    well-formed document (an element whose text holds a backslash), and
    normalising it again resolves the escape [\x41] into [A]. *)
Lemma escape_resolved_on_second_pass :
  @clean_xml_string backslash_library (PyStr (py "<a>\\x41</a>"))
  = Ok (py "<a>\x41</a>")
  ∧ @parse_xml backslash_library (py "<a>\x41</a>")
    = Ok (of_element (element "a" "\x41" []))
  ∧ @clean_xml_string backslash_library (PyStr (py "<a>\x41</a>"))
    = Ok (py "<a>A</a>")
  ∧ py "<a>A</a>" ≠ py "<a>\x41</a>".
Proof. repeat split; try (vm_compute; reflexivity). discriminate. Qed.

(** C6 (amended): when steps 1 and 2 leave a text returned by
    [clean_xml_string] unchanged (it has no backslash escape to
    resolve, no character outside ASCII and no character reference),
    normalising it again returns it with lines 64-73 applied once more,
    and returns it unchanged when its declaration, if any, is directly
    followed by [<] or by no [<] at all. *)
Theorem normalise_again `{Library} raw text :
  clean_xml_string raw = Ok text →
  unescape_backslashes text = Ok text →
  html_unescape text = Ok text →
  clean_xml_string (PyStr text) = Ok (isolate_xml text)
  ∧ (declaration_trimmed text → clean_xml_string (PyStr text) = Ok text).
Proof.
  intros Hret H1 H2.
  assert (∃ text0, text = steps_3_to_6 text0) as [text0 ->].
  { destruct raw as [| | |str|];
      try (injection Hret as <-; by exists []).
    apply clean_xml_string_inv in Hret as (t1 & t2 & _ & _ & ->). eauto. }
  rewrite (clean_xml_string_returns _ _ _ H1 H2), steps_3_to_6_again.
  split; [done|]. intros Htrim. f_equal.
  apply isolate_xml_id; [apply isolate_xml_shape|done].
Qed.

Lemma normalise_again_witness :
  let text := py "<a version=" ++ [c_quote] ++ py "1.0" ++ [c_quote]
              ++ py "><b>x</b></a>" in
  @clean_xml_string (example_library []) (PyStr text) = Ok text.
Proof.
  refine (proj2 (@normalise_again (example_library [])
                   (PyStr (py "junk <a version=1.0><b>x</b></a>  ")) _
                   _ _ _) _);
    vm_compute; done.
Defined.

(** ** The examples of the specification, end to end *)

Example clean_unquoted_attribute `{Library} :
  clean_xml_string (PyStr (py "<a version=1.0><b>x</b></a>"))
  = Ok (py "<a version=" ++ [c_quote] ++ py "1.0" ++ [c_quote]
        ++ py "><b>x</b></a>").
Proof. vm_compute. reflexivity. Qed.

Example clean_preamble_and_entities :
  @clean_xml_string (example_library [])
    (PyStr (py "Message: <?xml version=1.0?> body, &lt;Doc&gt;\n<Id>A,1</Id>\n&lt;/Doc&gt;  "))
  = Ok (py "<?xml version=" ++ [c_quote] ++ py "1.0" ++ [c_quote]
        ++ py "?><Doc>" ++ [c_newline] ++ py "<Id>A1</Id>" ++ [c_newline]
        ++ py "</Doc>").
Proof. vm_compute. reflexivity. Qed.

Example no_match_line :
  @process_comparison (example_library example_documents)
    [reference_record 7 "<Msg><Amt>10</Amt></Msg>"]
    [test_record "8" "<Msg><Amt>10</Amt></Msg>"]
  = Ok [[0x1F50D%N] ++ py " Starting XML comparison process..." ++ [c_newline];
        py "Test result overview" ++ [c_newline];
        py "test 7 fail (No Match)";
        [];
        warning_sign ++ py " No matching test record found for Reference #7"
        ++ [c_newline]].
Proof. vm_compute. reflexivity. Qed.

Example overview_of_a_batch :
  take 5 <$>
    @process_comparison (example_library example_documents)
      [reference_record 1 "<Msg><Amt>10</Amt></Msg>";
       reference_record 2 "<Msg><Amt>10</Amt></Msg>";
       reference_record 3 "<Msg><Amt>10</Msg>"]
      [test_record " 1 " "<Msg><Amt>10</Amt></Msg>";
       test_record "2" "<Msg><Amt>20</Amt></Msg>";
       test_record "3" "<Msg><Amt>10</Amt></Msg>"]
  = Ok [[0x1F50D%N] ++ py " Starting XML comparison process..." ++ [c_newline];
        py "Test result overview" ++ [c_newline];
        py "test 1 pass";
        py "test 2 fail";
        py "test 3 fail (XML Error)"].
Proof. vm_compute. reflexivity. Qed.

(** * Further properties of the code *)

(** ** [strip_namespace] (lines 82-84) *)

Lemma split_pieces sep s : Forall (λ piece, sep ∉ piece) (split sep s).
Proof.
  induction s as [|c s IH]; cbn [split].
  - repeat constructor. apply not_elem_of_nil.
  - destruct (N.eqb_spec c sep) as [->|Hne].
    + constructor; [apply not_elem_of_nil|done].
    + destruct (split sep s) as [|piece pieces]; inversion IH; subst.
      * repeat constructor. by intros [?|[]%elem_of_nil]%elem_of_cons.
      * constructor; [|done]. apply not_elem_of_cons. by split.
Qed.

Lemma split_not_elem_of sep s : sep ∉ s → split sep s = [s].
Proof.
  induction s as [|c s IH]; [done|]. intros [Hc Hs]%not_elem_of_cons.
  cbn [split]. rewrite (proj2 (N.eqb_neq c sep)) by done. by rewrite IH.
Qed.

Lemma split_at_separator sep before after :
  ∃ piece pieces,
    split sep (before ++ sep :: after) = (piece :: pieces) ++ split sep after.
Proof.
  induction before as [|c before (piece & pieces & IH)]; cbn [app split].
  - rewrite N.eqb_refl. by exists [], [].
  - rewrite IH. destruct (c =? sep)%N.
    + by exists [], (piece :: pieces).
    + by exists (c :: piece), pieces.
Qed.

(** X1: The namespace of a tag is dropped: what follows the last [}] is
    kept, whatever stands before it; a tag without [}] is unchanged;
    the result holds no [}], so stripping it again changes nothing. *)
Theorem strip_namespace_local_name :
  (∀ namespace local,
     c_rbrace ∉ local →
     strip_namespace (namespace ++ [c_rbrace] ++ local) = local)
  ∧ (∀ tag, c_rbrace ∉ tag → strip_namespace tag = tag)
  ∧ (∀ tag, c_rbrace ∉ strip_namespace tag)
  ∧ (∀ tag, strip_namespace (strip_namespace tag) = strip_namespace tag).
Proof.
  assert (∀ tag, c_rbrace ∉ tag → strip_namespace tag = tag) as Hplain.
  { intros tag Hno. unfold strip_namespace. by rewrite split_not_elem_of. }
  assert (∀ tag, c_rbrace ∉ strip_namespace tag) as Hnone.
  { intros tag. unfold strip_namespace.
    destruct (last (split c_rbrace tag)) as [piece|] eqn:Hl;
      [|apply not_elem_of_nil].
    pose proof (split_pieces c_rbrace tag) as Hall.
    rewrite Forall_forall in Hall. by eapply Hall, last_Some_elem_of. }
  split; [|split; [done|split; [done|]]].
  - intros namespace local Hno. unfold strip_namespace. cbn [app].
    destruct (split_at_separator c_rbrace namespace local)
      as (piece & pieces & ->).
    by rewrite split_not_elem_of, last_app by done.
  - intros tag. by apply Hplain.
Qed.

(** ** [compare_xml]: when it returns no message *)


(** ** [compare_xml]: exchanging the two trees *)

Lemma recurse_children_mirror children_a :
  Forall (λ a, ∀ b path diffs,
            recurse b a path (mirror <$> diffs)
            = mirror <$> recurse a b path diffs) children_a →
  ∀ children_b path diffs,
    recurse_children children_b children_a path (mirror <$> diffs)
    = mirror <$> recurse_children children_a children_b path diffs.
Proof.
  induction 1 as [|a ca Ha _ IH]; intros [|b cb] path diffs; cbn;
    try reflexivity.
  rewrite Ha. apply IH.
Qed.

Lemma recurse_mirror elem_a :
  ∀ elem_b path diffs,
    recurse elem_b elem_a path (mirror <$> diffs)
    = mirror <$> recurse elem_a elem_b path diffs.
Proof.
  induction elem_a as [ta xa aa ca tla IH] using Element_forall_ind.
  intros [tb xb ab cb tlb] path diffs. rewrite !recurse_unfold. cbv zeta.
  unfold current_path_of, local_tag. cbn [tag text attrib children].
  destruct (decide (ta = tb)) as [->|Htag].
  - rewrite (bool_decide_false (tb ≠ tb)) by (intros Hne; by apply Hne).
    destruct (bool_decide (_ ∈ IGNORED_TAGS)); [done|].
    rewrite <- (recurse_children_mirror ca IH). f_equal.
    rewrite (bool_decide_ext (length cb ≠ length ca)
               (length ca ≠ length cb)) by done.
    rewrite (bool_decide_ext (ab ≠ aa) (aa ≠ ab)) by done.
    rewrite (bool_decide_ext
               (strip (default [] xb) ≠ strip (default [] xa))
               (strip (default [] xa) ≠ strip (default [] xb)))
      by done.
    repeat case_bool_decide; by rewrite ?fmap_app.
  - rewrite (bool_decide_true (tb ≠ ta)), (bool_decide_true (ta ≠ tb))
      by done.
    by rewrite fmap_app.
Qed.

(** X3: Exchanging the two trees exchanges the two sides of every message
    and nothing else: the same messages, at the same paths, in the same
    order. *)
Theorem compare_xml_mirror xml_a xml_b :
  compare_xml xml_b xml_a = mirror <$> compare_xml xml_a xml_b.
Proof. apply (recurse_mirror xml_a xml_b [] []). Qed.

(** ** [compare_xml]: children are paired by position *)

Lemma recurse_children_take children_a children_b path diffs :
  let n := length children_a `min` length children_b in
  recurse_children children_a children_b path diffs
  = recurse_children (take n children_a) (take n children_b) path diffs.
Proof.
  revert children_b diffs.
  induction children_a as [|a ca IH]; intros [|b cb] diffs; cbn;
    try reflexivity.
  apply IH.
Qed.



(** ** [compare_xml]: the paths of the messages *)

Lemma recurse_paths elem_a :
  ∀ elem_b path d,
    d ∈ recurse elem_a elem_b path [] →
    (tag elem_a ≠ tag elem_b ∧ is_tag_mismatch d = true
     ∧ entry_path d = path)
    ∨ current_path_of path elem_a `prefix_of` entry_path d.
Proof.
  induction elem_a as [ta xa aa ca tla IH] using Element_forall_ind.
  intros elem_b path d. rewrite recurse_decompose. cbn [app].
  intros [Hown|Hbelow]%elem_of_app.
  - destruct (decide (ta = tag elem_b)) as [Htag|Htag].
    + right.
      destruct (node_diffs_tags_equal (mkElement ta xa aa ca tla) elem_b
                  path d Htag Hown) as [_ ->].
      done.
    + left.
      rewrite (node_diffs_tags_differ (mkElement ta xa aa ca tla) elem_b
                 path Htag) in Hown.
      apply list_elem_of_singleton in Hown as ->. done.
  - right. apply list_elem_of_In, in_flat_map in Hbelow
      as ([a b] & Hpair%list_elem_of_In & Hd%list_elem_of_In).
    unfold scheduled in Hpair. repeat case_bool_decide;
      try (by apply elem_of_nil in Hpair).
    cbn [children] in Hpair. apply elem_of_zip_l in Hpair as Ha.
    rewrite Forall_forall in IH. cbn [fst snd] in Hd.
    destruct (IH a Ha b _ d Hd) as [(_ & _ & ->)|Hpre];
      [by exists []; rewrite app_nil_r|].
    etrans; [|exact Hpre]. unfold current_path_of at 2.
    by apply prefix_app_r.
Qed.

(** X5: Every message of [compare_xml] carries a path that starts with [/]
    and the local name of the root of the first tree, except the
    mismatch of the two root tags, which carries the empty path. *)
Theorem compare_xml_paths xml_a xml_b d :
  d ∈ compare_xml xml_a xml_b →
  (tag xml_a ≠ tag xml_b
   ∧ compare_xml xml_a xml_b
     = [TagMismatch [] (local_tag xml_a) (local_tag xml_b)])
  ∨ (py "/" ++ local_tag xml_a) `prefix_of` entry_path d.
Proof.
  intros Hd. destruct (recurse_paths xml_a xml_b [] d Hd)
    as [(Htag & _ & _)|Hpre]; [left|by right].
  split; [done|]. unfold compare_xml. rewrite recurse_unfold. cbv zeta.
  by rewrite bool_decide_true.
Qed.

Lemma compare_xml_paths_witness :
  ValueMismatch (py "/Msg/Amt") (py "10") (py "20")
    ∈ compare_xml (msg_amt "10") (msg_amt "20")
  ∧ (py "/" ++ local_tag (msg_amt "10"))
      `prefix_of` entry_path (ValueMismatch (py "/Msg/Amt") (py "10") (py "20")).
Proof.
  assert (ValueMismatch (py "/Msg/Amt") (py "10") (py "20")
            ∈ compare_xml (msg_amt "10") (msg_amt "20")) as Hd
    by (vm_compute; set_solver).
  split; [exact Hd|].
  destruct (compare_xml_paths _ _ _ Hd) as [[Htag _]|Hpre].
  - by destruct Htag.
  - exact Hpre.
Defined.

(** ** [process_comparison]: the lookup of line 163 *)

(** X6: Of several test records with the same trimmed title the last one
    is the one a reference record is compared with; a title no record
    has is not in the lookup. *)
Theorem build_test_data_map_last_wins `{Library} test_data title :
  build_test_data_map test_data !! title
  = last (filter (λ t, test_title_of t = title) test_data).
Proof.
  unfold build_test_data_map.
  induction test_data as [|t test_data IH] using rev_ind; [done|].
  rewrite fold_left_app, filter_app. cbn [fold_left].
  destruct (decide (test_title_of t = title)) as [<-|Hne].
  - rewrite lookup_insert_eq, filter_cons_True, filter_nil by done.
    by rewrite last_snoc.
  - rewrite lookup_insert_ne, filter_cons_False, filter_nil, app_nil_r
      by done.
    exact IH.
Qed.

(** ** [process_comparison]: the lines it hands on *)

Section Overview.
Context `{Library}.

Lemma elem_of_overview_suffixes suffix :
  suffix ∈ overview_suffixes ↔
  suffix = py " pass" ∨ suffix = py " fail"
  ∨ suffix = py " fail (XML Error)" ∨ suffix = py " fail (No Match)".
Proof.
  unfold overview_suffixes. rewrite !elem_of_cons, elem_of_nil. tauto.
Qed.

(** One turn of the loop appends one line to the overview and only
    appends to the details. *)
Lemma process_entry_appends test_data_map r ref_entry r' :
  process_entry test_data_map r ref_entry = Ok r' →
  ∃ suffix more,
    suffix ∈ overview_suffixes
    ∧ overview_results r'
      = overview_results r ++ [py "test " ++ ref_id_of ref_entry ++ suffix]
    ∧ detailed_results r' = detailed_results r ++ more.
Proof.
  unfold process_entry. cbv zeta.
  destruct (truthy _) as [test_entry|].
  - destruct (clean_xml_string (dict_get ref_entry _ _)) as [ref_xml_str|e];
      cbn [mbind result_bind]; [|done].
    destruct (clean_xml_string (dict_get test_entry _ _)) as [test_xml_str|e];
      cbn [mbind result_bind]; [|done].
    destruct (print (header_of _ _)) as [[]|e]; cbn [mbind result_bind];
      [|done].
    destruct (parse_and_compare ref_xml_str test_xml_str) as [[|d diffs]|e];
      cbn [mbind result_bind].
    + destruct (print (pass_msg _)) as [[]|e]; cbn [mbind result_bind].
      * intros [= <-]; cbn [overview_results detailed_results].
        eexists _, _; split; [|split]; cycle 1;
          [reflexivity|rewrite <- ?app_assoc; reflexivity|].
        apply elem_of_overview_suffixes; auto 6.
      * destruct (is_ValueError e); [|done].
        destruct (print (error_msg _ _)) as [[]|e']; cbn [mbind result_bind];
          [|done].
        intros [= <-]; cbn [overview_results detailed_results].
        eexists _, _; split; [|split]; cycle 1;
          [reflexivity|rewrite <- ?app_assoc; reflexivity|].
        apply elem_of_overview_suffixes; auto 6.
    + destruct (print (fail_msg _)) as [[]|e]; cbn [mbind result_bind].
      * intros [= <-]; cbn [overview_results detailed_results].
        eexists _, _; split; [|split]; cycle 1;
          [reflexivity|rewrite <- ?app_assoc; reflexivity|].
        apply elem_of_overview_suffixes; auto 6.
      * destruct (is_ValueError e); [|done].
        destruct (print (error_msg _ _)) as [[]|e']; cbn [mbind result_bind];
          [|done].
        intros [= <-]; cbn [overview_results detailed_results].
        eexists _, _; split; [|split]; cycle 1;
          [reflexivity|rewrite <- ?app_assoc; reflexivity|].
        apply elem_of_overview_suffixes; auto 6.
    + destruct (is_ValueError e); [|done].
      destruct (print (error_msg _ _)) as [[]|e']; cbn [mbind result_bind];
        [|done].
      intros [= <-]; cbn [overview_results detailed_results].
      eexists _, _; split; [|split]; cycle 1;
        [reflexivity|rewrite <- ?app_assoc; reflexivity|].
      apply elem_of_overview_suffixes; auto 6.
  - destruct (print (warning_msg _)) as [[]|e]; cbn [mbind result_bind];
      [|done].
    intros [= <-]; cbn [overview_results detailed_results].
    eexists _, _; split; [|split]; cycle 1; [reflexivity|reflexivity|].
    apply elem_of_overview_suffixes; auto 6.
Qed.

Lemma process_entries_appends test_data_map ref_data :
  ∀ r r',
    process_entries test_data_map r ref_data = Ok r' →
    ∃ overview more,
      overview_results r' = overview_results r ++ overview
      ∧ detailed_results r' = detailed_results r ++ more
      ∧ Forall2 (λ ref_entry line,
                   ∃ suffix, suffix ∈ overview_suffixes
                     ∧ line = py "test " ++ ref_id_of ref_entry ++ suffix)
                ref_data overview.
Proof.
  induction ref_data as [|ref_entry ref_data IH]; intros r r'; cbn.
  - intros [= <-]. exists [], []. by rewrite !app_nil_r.
  - destruct (process_entry test_data_map r ref_entry) as [r1|e] eqn:Hone;
      cbn [mbind result_bind]; [|done].
    intros (overview & more & Ho & Hd & Hall)%IH.
    apply process_entry_appends in Hone
      as (suffix & more1 & Hs & Ho1 & Hd1).
    exists ((py "test " ++ ref_id_of ref_entry ++ suffix) :: overview),
           (more1 ++ more).
    rewrite Ho, Ho1, Hd, Hd1, <- !app_assoc. repeat split; try done.
    constructor; [by exists suffix|done].
Qed.

(** X7: The lines [process_comparison] hands to [write_results_to_file]:
    the two heading lines, then one overview line for every reference
    record, in the order of the reference records and each made of
    [test], the trimmed id and one of the four verdicts, then an empty
    line, then the details. *)
Theorem overview_one_line_per_reference ref_data test_data lines :
  process_comparison ref_data test_data = Ok lines →
  ∃ overview details,
    lines
    = [[0x1F50D%N] ++ py " Starting XML comparison process..."
       ++ [c_newline];
       py "Test result overview" ++ [c_newline]]
      ++ overview ++ [[]] ++ details
    ∧ Forall2 (λ ref_entry line,
                 ∃ suffix, suffix ∈ overview_suffixes
                   ∧ line = py "test " ++ ref_id_of ref_entry ++ suffix)
              ref_data overview.
Proof.
  unfold process_comparison. cbv zeta.
  destruct (process_entries _ _ ref_data) as [r|e] eqn:Hrun;
    cbn [mbind result_bind]; [|done].
  intros [= <-].
  apply process_entries_appends in Hrun as (overview & more & Ho & Hd & Hall).
  exists overview, more. by rewrite Ho, Hd.
Qed.

(** *** What can end the loop *)

Lemma print_total s :
  (∀ c, stdout_encodes c = true) → print s = Ok tt.
Proof.
  intros Hall. unfold print.
  rewrite (proj2 (forallb_forall _ _)); [done|]. intros c _. apply Hall.
Qed.

Lemma parse_xml_elements_only xml_str t :
  (∀ b t, fromstring b = inr t → elements_only t = true) →
  parse_xml xml_str = Ok t → elements_only t = true.
Proof.
  intros Hparser. unfold parse_xml. cbv zeta.
  destruct (utf8_encode xml_str) as [b|e]; [|done].
  destruct (fromstring b) as [reason|element] eqn:Hb; [done|].
  intros [= <-]. by eapply Hparser.
Qed.

Lemma compare_xml_node_elements_only xml_a xml_b :
  elements_only xml_a = true → elements_only xml_b = true →
  ∃ diffs, compare_xml_node xml_a xml_b = Ok diffs.
Proof.
  intros [a ->]%elements_only_of_element [b ->]%elements_only_of_element.
  eexists. apply recurse_node_of_element.
Qed.

Lemma parse_and_compare_elements_only ref_xml_str test_xml_str e :
  (∀ b t, fromstring b = inr t → elements_only t = true) →
  parse_and_compare ref_xml_str test_xml_str = Raise e →
  is_ValueError e = true.
Proof.
  intros Hparser. unfold parse_and_compare.
  destruct (parse_xml ref_xml_str) as [a|e1] eqn:Ha; cbn [mbind result_bind];
    [|intros [= <-]; by eapply parse_xml_raises].
  destruct (parse_xml test_xml_str) as [b|e2] eqn:Hb; cbn [mbind result_bind];
    [|intros [= <-]; by eapply parse_xml_raises].
  apply (parse_xml_elements_only _ _ Hparser) in Ha, Hb.
  destruct (compare_xml_node_elements_only a b Ha Hb) as [diffs ->]. done.
Qed.

Lemma process_entry_returns_iff test_data_map r ref_entry :
  (∀ c, stdout_encodes c = true) →
  (∀ b t, fromstring b = inr t → elements_only t = true) →
  (∃ r', process_entry test_data_map r ref_entry = Ok r')
  ↔ cleans test_data_map ref_entry.
Proof.
  intros Hstdout Hparser. unfold cleans, process_entry. cbv zeta.
  assert (∀ s, print s = Ok tt) as Hprint
    by (intros s; by apply print_total).
  destruct (truthy _) as [test_entry|].
  2:{ rewrite Hprint. split; eauto. }
  destruct (clean_xml_string (dict_get ref_entry _ _)) as [ref_xml_str|e];
    cbn [mbind result_bind].
  2:{ split; [by intros [? [=]]|by intros [[? [=]] _]]. }
  destruct (clean_xml_string (dict_get test_entry _ _)) as [test_xml_str|e];
    cbn [mbind result_bind].
  2:{ split; [by intros [? [=]]|by intros [_ [? [=]]]]. }
  split; [by eauto|intros _].
  destruct (parse_and_compare _ _) as [[|d diffs]|e] eqn:Hpc;
    repeat (rewrite Hprint; cbn [mbind result_bind]); [by eauto..|].
  rewrite (parse_and_compare_elements_only _ _ _ Hparser Hpc).
  repeat (rewrite Hprint; cbn [mbind result_bind]). eauto.
Qed.

Lemma process_entries_returns_iff test_data_map ref_data :
  (∀ c, stdout_encodes c = true) →
  (∀ b t, fromstring b = inr t → elements_only t = true) →
  ∀ r, (∃ r', process_entries test_data_map r ref_data = Ok r')
       ↔ Forall (cleans test_data_map) ref_data.
Proof.
  intros Hstdout Hparser.
  induction ref_data as [|ref_entry ref_data IH]; intros r.
  - cbn. split; eauto.
  - rewrite Forall_cons,
      <- (process_entry_returns_iff _ r _ Hstdout Hparser).
    cbn [process_entries].
    destruct (process_entry test_data_map r ref_entry) as [r1|e];
      cbn [mbind result_bind].
    + rewrite (IH r1). split; [intros Hall; split; by eauto|by intros [_ ?]].
    + split; [by intros [? [=]]|by intros [[? [=]] _]].
Qed.

End Overview.

(** The parser of the examples returns elements only. *)
Lemma example_parser_elements_only encodes documents b t :
  @fromstring
    (node_library encodes (map (λ d, (d.1, of_element d.2)) documents)) b
  = inr t →
  elements_only t = true.
Proof.
  cbn. induction documents as [|[k e] documents IH]; cbn; [done|].
  case_bool_decide; [|exact IH].
  intros [= <-]. apply elements_only_of_element. by exists e.
Qed.


Lemma overview_one_line_per_reference_witness :
  ∃ lines,
    @process_comparison (example_library example_documents)
      [reference_record 1 "<Msg><Amt>10</Amt></Msg>";
       reference_record 2 "<Msg><Amt>10</Amt></Msg>";
       reference_record 3 "<Msg><Amt>10</Msg>"]
      [test_record " 1 " "<Msg><Amt>10</Amt></Msg>";
       test_record "2" "<Msg><Amt>20</Amt></Msg>";
       test_record "3" "<Msg><Amt>10</Amt></Msg>"]
    = Ok lines
    ∧ ∃ overview details,
        lines
        = [[0x1F50D%N] ++ py " Starting XML comparison process..."
           ++ [c_newline];
           py "Test result overview" ++ [c_newline]]
          ++ overview ++ [[]] ++ details
        ∧ Forall2 (λ ref_entry line,
                     ∃ suffix, suffix ∈ overview_suffixes
                       ∧ line = py "test " ++ ref_id_of ref_entry ++ suffix)
            [reference_record 1 "<Msg><Amt>10</Amt></Msg>";
             reference_record 2 "<Msg><Amt>10</Amt></Msg>";
             reference_record 3 "<Msg><Amt>10</Msg>"]
            overview.
Proof.
  eexists. split; [vm_compute; reflexivity|].
  apply (@overview_one_line_per_reference
           (example_library example_documents) _
           [test_record " 1 " "<Msg><Amt>10</Amt></Msg>";
            test_record "2" "<Msg><Amt>20</Amt></Msg>";
            test_record "3" "<Msg><Amt>10</Amt></Msg>"]).
  vm_compute. reflexivity.
Defined.

(** ** [parse_xml]: what it raises *)

Lemma replace_single_map (s : pystr) a b :
  replace s [a] [b] = map (λ c, if (c =? a)%N then b else c) s.
Proof.
  unfold replace. induction s as [|x s IH]; [reflexivity|].
  cbn [replace_from startswith length Nat.sub app map].
  rewrite startswith_nil, andb_true_r.
  destruct (N.eqb_spec x a) as [->|Hne]; by rewrite IH.
Qed.

(** X9: Whatever fails in [parse_xml], the encoding of the text or the
    parser, the caller gets a [ValueError], which the [except] clause
    of line 209 catches.  Its message ends with a snippet of the text
    followed by three dots, whether or not the text is longer than the
    snippet: the snippet is the first hundred characters of the text,
    or the whole text when it is shorter, with every newline replaced
    by a space. *)
Theorem parse_xml_raises_value_error `{Library} xml_str e :
  parse_xml xml_str = Raise e →
  ∃ reason snippet,
    e = ValueError (warning_sign ++ py " Failed to parse XML: " ++ reason
                    ++ [c_newline] ++ py "  Snippet: " ++ snippet
                    ++ py "...")
    ∧ snippet
      = (λ c, if (c =? c_newline)%N then c_space else c)
          <$> take 100 xml_str
    ∧ length snippet = length xml_str `min` 100
    ∧ (c_newline ∉ snippet)
    ∧ (c_newline ∉ take 100 xml_str → snippet = take 100 xml_str).
Proof.
  unfold parse_xml. cbv zeta.
  set (snippet := replace (take 100 xml_str) [c_newline] [c_space]).
  assert (snippet
          = (λ c, if (c =? c_newline)%N then c_space else c)
              <$> take 100 xml_str
          ∧ length snippet = length xml_str `min` 100
          ∧ (c_newline ∉ snippet)
          ∧ (c_newline ∉ take 100 xml_str → snippet = take 100 xml_str))
    as Hsnippet.
  { unfold snippet. rewrite replace_single_map. split; [done|].
    split; [|split].
    - rewrite length_map, length_take. lia.
    - rewrite list_elem_of_fmap. intros (c & Hc & _).
      by destruct (N.eqb_spec c c_newline).
    - intros Hno. rewrite <- (list_fmap_id (take 100 xml_str)) at 2.
      apply list_fmap_ext. intros i c Hc.
      destruct (N.eqb_spec c c_newline) as [->|]; [|done].
      destruct Hno. by eapply list_elem_of_lookup_2. }
  destruct (utf8_encode xml_str) as [b|e'].
  - destruct (fromstring b) as [reason|element]; [|done].
    intros [= <-]. by exists reason, snippet.
  - intros [= <-]. by exists (str_exn e'), snippet.
Qed.

Lemma parse_xml_raises_value_error_witness :
  ∃ reason snippet,
    @parse_xml (example_library example_documents)
      (py "<Msg><Amt>10</Msg>")
    = Raise (ValueError (warning_sign ++ py " Failed to parse XML: "
                         ++ reason ++ [c_newline] ++ py "  Snippet: "
                         ++ snippet ++ py "..."))
    ∧ snippet = py "<Msg><Amt>10</Msg>".
Proof.
  destruct (@parse_xml_raises_value_error (example_library example_documents)
              (py "<Msg><Amt>10</Msg>") _ eq_refl)
    as (reason & snippet & He & _ & _ & _ & Hsame).
  exists reason, snippet. split.
  - rewrite <- He. vm_compute. reflexivity.
  - rewrite Hsame; [reflexivity|].
    apply (bool_decide_unpack _). vm_compute. exact I.
Defined.

(** ** [clean_xml_string]: what a returned text looks like *)

(** X10: A text returned by [clean_xml_string] holds no comma and neither
    starts nor ends with white space. *)
Theorem clean_xml_string_output `{Library} raw s :
  clean_xml_string raw = Ok s →
  (c_comma ∉ s) ∧ strip s = s.
Proof.
  destruct raw as [| | |raw|]; try (intros [= <-]; split; [apply not_elem_of_nil|done]).
  intros (text1 & text2 & _ & _ & ->)%clean_xml_string_inv.
  destruct (steps_3_to_6_quote_attrs text2) as (y & Hy & Hq & Hc & Hs).
  split; [|exact Hs]. rewrite Hy.
  intros [[=]|Hin]%elem_of_quote_attrs; done.
Qed.

Lemma clean_xml_string_output_witness :
  (c_comma ∉ py "<Id>A1</Id>") ∧ strip (py "<Id>A1</Id>") = py "<Id>A1</Id>".
Proof.
  apply (@clean_xml_string_output (example_library [])
           (PyStr (py " ,<Id>A,1</Id>, "))).
  vm_compute. reflexivity.
Defined.

(** ** Step 1 on a text without backslash *)

Section Plain.
Context `{Library}.
Local Open Scope N_scope.

Lemma utf8_char_spec c :
  is_surrogate c = false →
  ∃ b, utf8_char c = Some b
       ∧ (c < 128 → b = [c])
       ∧ (128 ≤ c → Forall (λ x, 128 ≤ x) b ∧ (2 ≤ length b)%nat).
Proof.
  unfold is_surrogate, utf8_char. intros ->.
  destruct (N.ltb_spec c 0x80); [|destruct (N.ltb_spec c 0x800);
    [|destruct (N.ltb_spec c 0x10000)]]; eexists; (split; [reflexivity|]);
    (split; [intros; try lia; reflexivity|intros]); try lia;
    (split; [|cbn; lia]); rewrite ?Forall_cons, Forall_nil;
    repeat split; (etrans; [|apply N.le_add_r]); lia.
Qed.

Lemma utf8_bytes_spec raw :
  Forall (λ c, is_surrogate c = false) raw →
  ∃ b, utf8_bytes raw = Some b
       ∧ (∀ x, x < 128 → x ∈ b → x ∈ raw)
       ∧ (length raw ≤ length b)%nat
       ∧ (Forall (λ c, c < 128) raw → b = raw)
       ∧ (Exists (λ c, 128 ≤ c) raw → (length raw < length b)%nat).
Proof.
  induction 1 as [|c raw Hc _ (bs & Hbs & Hin & Hlen & Hascii & Hhigh)].
  - exists []. repeat split; try done. by intros ?%Exists_nil.
  - destruct (utf8_char_spec c Hc) as (b & Hb & Hlow & Hup).
    exists (b ++ bs). cbn [utf8_bytes]. rewrite Hb, Hbs.
    split; [reflexivity|].
    destruct (N.lt_ge_cases c 128) as [Hlt|Hge].
    + rewrite (Hlow Hlt). cbn [app length]. repeat split.
      * intros x Hx [->|Hxs]%elem_of_cons; [left|right; by apply Hin].
      * lia.
      * intros [_ Hall]%Forall_cons. by rewrite Hascii.
      * intros [?|Hex]%Exists_cons; [lia|]. specialize (Hhigh Hex). lia.
    + destruct (Hup Hge) as [Hall Hlen2]. rewrite length_app. repeat split.
      * intros x Hx [Hxb|Hxs]%elem_of_app; [|right; by apply Hin].
        rewrite Forall_forall in Hall. specialize (Hall x Hxb). lia.
      * cbn [length]. lia.
      * intros [? _]%Forall_cons. lia.
      * intros _. cbn [length]. lia.
Qed.

Lemma unicode_escape_from_plain (b : list N) :
  c_backslash ∉ b → unicode_escape_from 0 b = Some b.
Proof.
  induction b as [|c b IH]; [done|].
  intros [Hc Hb]%not_elem_of_cons. cbn [unicode_escape_from].
  destruct (N.eqb_spec c c_backslash) as [->|_]; [done|].
  by rewrite (IH Hb).
Qed.

(** X11: A text without backslash and surrogate passes step 1
    ([raw.encode("utf-8").decode("unicode_escape")]) as its UTF-8 bytes,
    each read as one character: an ASCII text is unchanged; a text with
    a character outside ASCII comes out longer, that character replaced
    by two to four characters of the range 128-255. *)
Theorem unescape_backslashes_plain raw :
  c_backslash ∉ raw →
  Forall (λ c, is_surrogate c = false) raw →
  ∃ b, utf8_bytes raw = Some b
       ∧ unescape_backslashes raw = Ok b
       ∧ (Forall (λ c, c < 128) raw → b = raw)
       ∧ (Exists (λ c, 128 ≤ c) raw → (length raw < length b)%nat).
Proof.
  intros Hbs Hsur.
  destruct (utf8_bytes_spec raw Hsur) as (b & Hb & Hin & _ & Hascii & Hhigh).
  exists b. repeat split; try done.
  unfold unescape_backslashes, utf8_encode. rewrite Hb.
  cbn [mbind result_bind]. unfold unicode_escape.
  rewrite unicode_escape_from_plain; [done|].
  intros Hbb. apply Hbs, Hin; [|done]. unfold c_backslash. lia.
Qed.

(** X12: [clean_xml_string] returns on every text without backslash,
    ampersand and surrogate: steps 1 and 2 cannot fail on it, and the
    result is that of steps 3 to 6 on its UTF-8 bytes. *)
Theorem clean_xml_string_returns_plain raw :
  c_backslash ∉ raw →
  c_amp ∉ raw →
  Forall (λ c, is_surrogate c = false) raw →
  ∃ b, utf8_bytes raw = Some b
       ∧ clean_xml_string (PyStr raw) = Ok (steps_3_to_6 b)
       ∧ (Forall (λ c, c < 128) raw → b = raw).
Proof.
  intros Hbs Hamp Hsur.
  destruct (utf8_bytes_spec raw Hsur) as (b & Hb & Hin & _ & Hascii & _).
  exists b. repeat split; try done.
  apply (clean_xml_string_returns raw b b).
  - unfold unescape_backslashes, utf8_encode. rewrite Hb.
    cbn [mbind result_bind]. unfold unicode_escape.
    rewrite unicode_escape_from_plain; [done|].
    intros Hbb. apply Hbs, Hin; [|done]. unfold c_backslash. lia.
  - unfold html_unescape. rewrite bool_decide_false; [done|].
    intros Hbb. apply Hamp, Hin; [|done]. unfold c_amp. lia.
Qed.
End Plain.

Lemma unescape_backslashes_plain_witness :
  @unescape_backslashes (example_library []) [233%N] = Ok [195%N; 169%N].
Proof.
  destruct (@unescape_backslashes_plain (example_library []) [233%N])
    as (b & Hb & Hrun & _).
  - apply (bool_decide_unpack _). vm_compute. exact I.
  - repeat constructor.
  - rewrite Hrun. f_equal. vm_compute in Hb. by injection Hb.
Defined.

Lemma clean_xml_string_returns_plain_witness :
  @clean_xml_string (example_library []) (PyStr (py "x <a>1,5</a>"))
  = Ok (@steps_3_to_6 (example_library []) (py "x <a>1,5</a>")).
Proof.
  destruct (@clean_xml_string_returns_plain (example_library [])
              (py "x <a>1,5</a>"))
    as (b & _ & Hrun & Hascii).
  - apply (bool_decide_unpack _). vm_compute. exact I.
  - apply (bool_decide_unpack _). vm_compute. exact I.
  - apply (bool_decide_unpack _). vm_compute. exact I.
  - rewrite Hrun, Hascii; [reflexivity|].
    apply (bool_decide_unpack _). vm_compute. exact I.
Defined.

(** ** [clean_xml_content]: what a returned text looks like *)

Lemma lstrip_spaces s :
  ∃ spaces, s = spaces ++ lstrip s ∧ Forall (λ c, isspace c = true) spaces.
Proof.
  induction s as [|x s (spaces & IH & Hall)]; [by exists []|]. cbn.
  destruct (isspace x) eqn:Hx; [|by exists []].
  exists (x :: spaces). split; [cbn; by rewrite <- IH|by constructor].
Qed.

Lemma rstrip_spaces s :
  ∃ spaces, s = rstrip s ++ spaces ∧ Forall (λ c, isspace c = true) spaces.
Proof.
  unfold rstrip. destruct (lstrip_spaces (reverse s)) as (spaces & Hs & Hall).
  exists (reverse spaces). split.
  - by rewrite <- reverse_app, <- Hs, reverse_involutive.
  - by apply Forall_reverse.
Qed.

(** A first character that is no white space stays the first one. *)
Lemma strip_keeps_head s c :
  head s = Some c → isspace c = false → head (strip s) = Some c.
Proof.
  intros Hh Hc. unfold strip. rewrite (lstrip_id s).
  2:{ intros c' Hc'. by simplify_eq. }
  destruct (rstrip_spaces s) as (spaces & Hs & Hall).
  destruct (rstrip s) as [|x r] eqn:Hr.
  - cbn in Hs. subst s. destruct spaces as [|y spaces]; [done|].
    apply Forall_cons in Hall as [Hy _]. cbn in Hh. simplify_eq. congruence.
  - rewrite Hs in Hh. cbn in Hh. by simplify_eq.
Qed.

Lemma strip_infix s : ∃ before after, s = before ++ strip s ++ after.
Proof.
  unfold strip. destruct (rstrip_prefix (lstrip s)) as [after Ha].
  destruct (lstrip_suffix s) as [before Hb].
  exists before, after. by rewrite <- Ha.
Qed.

Lemma from_first_lt_shape text :
  head (from_first_lt text) = Some c_lt ∨ c_lt ∉ from_first_lt text.
Proof.
  unfold from_first_lt, find. rewrite drop_0.
  destruct (find_from (py "<") text 0) as [start|] eqn:Hfind.
  - left. apply find_from_Some in Hfind as (k & -> & _ & Hat & _).
    by apply startswith_single.
  - right. eapply not_startswith_single_not_elem_of, find_from_None, Hfind.
Qed.

Lemma single_spaced_nil : single_spaced [].
Proof. split; [by intros c ?%elem_of_nil|done]. Qed.

Lemma single_spaced_cons c s :
  single_spaced (c :: s)
  ↔ (isspace c = true → c = c_space)
    ∧ (c = c_space → head s ≠ Some c_space)
    ∧ single_spaced s.
Proof.
  unfold single_spaced. split.
  - intros [Hall Hadj]. repeat split.
    + apply Hall. by left.
    + intros -> Hh. apply (Hadj 0%nat); [done|]. by destruct s.
    + intros d Hd. apply Hall. by right.
    + intros i. apply (Hadj (S i)).
  - intros (Hc & Hh & Hall & Hadj). split.
    + intros d [->|Hd]%elem_of_cons; [done|by apply Hall].
    + intros [|i]; cbn.
      * intros [= ->]. destruct s; [done|]. cbn. by apply Hh.
      * apply Hadj.
Qed.

Lemma single_spaced_app a b :
  single_spaced (a ++ b) → single_spaced a ∧ single_spaced b.
Proof.
  induction a as [|c a IH]; cbn [app].
  - split; [apply single_spaced_nil|done].
  - rewrite !single_spaced_cons. intros (Hc & Hh & Hall).
    destruct (IH Hall) as [Ha Hb]. split; [|done].
    split; [done|]. split; [|done].
    intros Heq. specialize (Hh Heq). by destruct a.
Qed.

Lemma single_spaced_collapse in_run s :
  single_spaced (collapse_whitespace_from in_run s)
  ∧ (in_run = true →
     head (collapse_whitespace_from in_run s) ≠ Some c_space).
Proof.
  revert in_run. induction s as [|c s IH]; intros in_run;
    cbn [collapse_whitespace_from].
  - split; [apply single_spaced_nil|done].
  - destruct (isspace c) eqn:Hc; [destruct in_run|].
    + apply IH.
    + split; [|done]. apply single_spaced_cons.
      split; [done|]. split; [|apply (IH true)].
      intros _. by apply (IH true).
    + split.
      * apply single_spaced_cons. split; [congruence|].
        split; [|apply (IH false)]. intros ->. by vm_compute in Hc.
      * intros _ [= ->]. by vm_compute in Hc.
Qed.

Section Content_facts.
Context `{Library}.

(** X13: A text returned by [clean_xml_content] starts with [<] or holds no
    [<] at all; it neither starts nor ends with white space; all its
    white space is single spaces.  A value that is no string gives the
    empty text. *)
Theorem clean_xml_content_output raw s :
  clean_xml_content raw = Ok s →
  (head s = Some c_lt ∨ c_lt ∉ s)
  ∧ strip s = s
  ∧ single_spaced s
  ∧ ((∀ text, raw ≠ PyStr text) → s = []).
Proof.
  destruct raw as [| | |raw|];
    try (intros [= <-]; split; [right; apply not_elem_of_nil|];
         split; [done|]; split; [apply single_spaced_nil|done]).
  unfold clean_xml_content. cbv zeta.
  destruct (unescape_backslashes _) as [text1|e]; cbn [mbind result_bind];
    [|done].
  destruct (html_unescape text1) as [text2|e]; cbn [mbind result_bind];
    [|done].
  intros [= <-].
  set (text := collapse_whitespace (quote_attrs text2)).
  split; [|split; [|split]].
  - destruct (from_first_lt_shape text) as [Hh|Hno].
    + left. by apply strip_keeps_head.
    + right. intros Hin. by apply Hno, strip_subseteq.
  - apply strip_strip.
  - assert (single_spaced text) as Htext
      by apply (single_spaced_collapse false).
    assert (single_spaced (from_first_lt text)) as Hft.
    { unfold from_first_lt. destruct (find text _ 0) as [start|]; [|done].
      rewrite <- (take_drop start text) in Htext.
      by apply single_spaced_app in Htext as [_ ?]. }
    destruct (strip_infix (from_first_lt text)) as (before & after & Hs).
    rewrite Hs in Hft. apply single_spaced_app in Hft as [_ Hft].
    by apply single_spaced_app in Hft as [Hft _].
  - intros Hns. by destruct (Hns raw).
Qed.
End Content_facts.

Lemma clean_xml_content_output_witness :
  (head (py "<a>1 2</a>") = Some c_lt ∨ c_lt ∉ py "<a>1 2</a>")
  ∧ strip (py "<a>1 2</a>") = py "<a>1 2</a>"
  ∧ single_spaced (py "<a>1 2</a>")
  ∧ ((∀ text, PyStr (py "'x <a>1" ++ [c_newline; c_tab] ++ py "2</a> '")
              ≠ PyStr text)
     → py "<a>1 2</a>" = []).
Proof.
  apply (@clean_xml_content_output (example_library [])
           (PyStr (py "'x <a>1" ++ [c_newline; c_tab] ++ py "2</a> '"))).
  vm_compute. reflexivity.
Defined.

(** ** [clean_xml_content]: texts on which it returns *)

Lemma elem_of_replace_from (old new : pystr) skip (s : pystr) c :
  c ∈ replace_from old new skip s → c ∈ s ∨ c ∈ new.
Proof.
  revert skip. induction s as [|x s IH]; intros skip; cbn [replace_from].
  - by intros ?%elem_of_nil.
  - destruct skip as [|skip].
    + destruct (startswith (x :: s) old).
      * intros [Hn|Hr]%elem_of_app; [by right|].
        destruct (IH _ Hr); [left; by right|by right].
      * intros [->|Hr]%elem_of_cons; [left; by left|].
        destruct (IH _ Hr); [left; by right|by right].
    + intros Hr. destruct (IH _ Hr); [left; by right|by right].
Qed.

Lemma elem_of_replace (s old new : pystr) c :
  c ∈ replace s old new → c ∈ s ∨ c ∈ new.
Proof. apply elem_of_replace_from. Qed.

Lemma strip_edge_quotes_from_subseteq at_start skip (s : pystr) :
  strip_edge_quotes_from at_start skip s ⊆ s.
Proof.
  revert at_start skip. induction s as [|x s IH]; intros at_start skip;
    cbn [strip_edge_quotes_from]; [done|].
  destruct skip as [|skip].
  - destruct (match_edge_quotes at_start (x :: s)) as [n|].
    + intros c Hc. right. by eapply IH.
    + intros c [->|Hc]%elem_of_cons; [by left|right; by eapply IH].
  - intros c Hc. right. by eapply IH.
Qed.

Section Content_returns.
Context `{Library}.

(** Steps 1 and 2 of the normalisers on a text without backslash,
    ampersand and surrogate. *)
Lemma unescape_plain text :
  c_backslash ∉ text →
  c_amp ∉ text →
  Forall (λ c, is_surrogate c = false) text →
  ∃ b, unescape_backslashes text = Ok b ∧ html_unescape b = Ok b.
Proof.
  intros Hbs Hamp Hsur.
  destruct (utf8_bytes_spec text Hsur) as (b & Hb & Hin & _).
  exists b. split.
  - unfold unescape_backslashes, utf8_encode. rewrite Hb.
    cbn [mbind result_bind]. unfold unicode_escape.
    rewrite unicode_escape_from_plain; [done|].
    intros Hbb. apply Hbs, Hin; [|done]. unfold c_backslash. lia.
  - unfold html_unescape. rewrite bool_decide_false; [done|].
    intros Hbb. apply Hamp, Hin; [|done]. unfold c_amp. lia.
Qed.

(** X14: [clean_xml_content] returns on every text without backslash,
    ampersand and surrogate: what it removes and replaces before the
    two decoding steps brings in none of them. *)
Theorem clean_xml_content_returns_plain raw :
  c_backslash ∉ raw →
  c_amp ∉ raw →
  Forall (λ c, is_surrogate c = false) raw →
  ∃ s, clean_xml_content (PyStr raw) = Ok s.
Proof.
  intros Hbs Hamp Hsur. unfold clean_xml_content. cbv zeta.
  set (text := replace (replace (strip_edge_quotes _) _ _) _ _).
  assert (∀ c, c ∈ text → c ∈ raw ∨ c = c_space ∨ c = c_quote) as Hin.
  { intros c Hc. unfold text in Hc.
    apply elem_of_replace in Hc as [Hc|Hc]; [|by apply elem_of_nil in Hc].
    apply elem_of_replace in Hc as [Hc|Hc];
      [|right; right; by apply list_elem_of_singleton in Hc].
    apply strip_edge_quotes_from_subseteq, strip_subseteq in Hc.
    apply elem_of_replace in Hc as [Hc|Hc];
      [|right; left; by apply list_elem_of_singleton in Hc].
    apply elem_of_replace in Hc as [Hc|Hc]; [|by apply elem_of_nil in Hc].
    apply elem_of_replace in Hc as [Hc|Hc]; [|by apply elem_of_nil in Hc].
    left. by apply strip_subseteq. }
  destruct (unescape_plain text) as (b & -> & Hhtml).
  - intros [?|[[=]|[=]]]%Hin. done.
  - intros [?|[[=]|[=]]]%Hin. done.
  - apply Forall_forall. intros c [Hc|[->| ->]]%Hin; [|done..].
    rewrite Forall_forall in Hsur. by apply Hsur.
  - cbn [mbind result_bind]. rewrite Hhtml. cbn [mbind result_bind]. eauto.
Qed.
End Content_returns.

Lemma clean_xml_content_returns_plain_witness :
  ∃ s, @clean_xml_content (example_library [])
         (PyStr (py "'x <a>1,5</a> '")) = Ok s.
Proof.
  apply (@clean_xml_content_returns_plain (example_library [])).
  - apply (bool_decide_unpack _). vm_compute. exact I.
  - apply (bool_decide_unpack _). vm_compute. exact I.
  - apply (bool_decide_unpack _). vm_compute. exact I.
Defined.

(** ** [read_all_input_files] *)

Section Read_all.
Context `{Library}.

(** The records of the loop, when it returns. *)
Lemma read_input_files_records input_files :
  ∀ records out,
    read_input_files records input_files = Ok out →
    out = records
          ++ flat_map
               (λ file_path,
                  match (content ← read file_path;
                         clean_xml_content (PyStr content)) with
                  | Ok cleaned_content =>
                      [record_of (stem file_path) cleaned_content]
                  | Raise _ => []
                  end) input_files.
Proof.
  induction input_files as [|f input_files IH]; intros records out;
    cbn [read_input_files flat_map].
  - intros [= <-]. by rewrite app_nil_r.
  - unfold read_input_file at 1.
    destruct (print _) as [[]|e]; cbn [mbind result_bind]; [|done].
    destruct (content ← read f; clean_xml_content (PyStr content))
      as [cleaned_content|e]; cbn [mbind result_bind].
    + intros ->%IH. by rewrite <- app_assoc.
    + destruct (print _) as [[]|e']; cbn [mbind result_bind]; [|done].
      by intros ->%IH.
Qed.

(** Where every line can be printed the loop returns. *)
Lemma read_input_files_returns input_files :
  (∀ c, stdout_encodes c = true) →
  ∀ records, ∃ out, read_input_files records input_files = Ok out.
Proof.
  intros Hstdout.
  assert (∀ s, print s = Ok tt) as Hprint.
  { intros s. unfold print.
    rewrite (proj2 (forallb_forall _ _)); [done|]. intros c _. apply Hstdout. }
  induction input_files as [|f input_files IH]; intros records;
    cbn [read_input_files]; [by eauto|].
  unfold read_input_file. rewrite Hprint. cbn [mbind result_bind].
  destruct (content ← read f; clean_xml_content (PyStr content))
    as [cleaned_content|e]; cbn [mbind result_bind]; [apply IH|].
  rewrite Hprint. cbn [mbind result_bind]. apply IH.
Qed.

(** X15: on a standard output that can write every character,
    [read_all_input_files] raises exactly for a folder that does not
    exist or lists no [.xml] and no [.txt] file, and what it raises
    is the [FileNotFoundError] of line 74 or line 78: whatever reading
    or cleaning a file raises is caught. *)
Theorem read_all_input_files_raises_iff folder_path folder e :
  (∀ c, stdout_encodes c = true) →
  read_all_input_files folder_path folder = inl e
  ↔ (folder = None
     ∧ e = FileNotFoundError
             ([0x274C%N] ++ py " Folder not found: " ++ folder_path))
    ∨ (folder = Some ([], [])
       ∧ e = FileNotFoundError
               (warning_sign ++ py " No .xml or .txt files found in: "
                ++ folder_path)).
Proof.
  intros Hstdout.
  assert (∀ s, print s = Ok tt) as Hprint.
  { intros s. unfold print.
    rewrite (proj2 (forallb_forall _ _)); [done|]. intros c _. apply Hstdout. }
  unfold read_all_input_files. cbv zeta. rewrite Hprint.
  cbn [mbind result_bind].
  destruct folder as [[xml_files txt_files]|].
  - destruct (xml_files ++ txt_files) as [|f input_files] eqn:Hfiles.
    + apply app_eq_nil in Hfiles as [-> ->].
      split; [intros [= <-]; by right|].
      by intros [[[=] _]|[_ ->]].
    + destruct (read_input_files_returns (f :: input_files) Hstdout [])
        as [out ->].
      cbn [mbind result_bind]. rewrite Hprint. cbn [mbind result_bind].
      split; [done|]. intros [[[=] _]|[[= -> ->] _]]. done.
  - split; [intros [= <-]; by left|]. by intros [[_ ->]|[[=] _]].
Qed.

(** X16: The records [read_all_input_files] returns: one for every file
    that can be read and cleaned, with the name of the file without
    its extension as title and the cleaned text as content, the
    [.xml] files before the [.txt] files, each group in the order it
    is listed; a file that cannot be read or cleaned leaves no
    record. *)
Theorem read_all_input_files_records folder_path folder records :
  read_all_input_files folder_path folder = inr records →
  ∃ xml_files txt_files,
    folder = Some (xml_files, txt_files)
    ∧ records
      = flat_map
          (λ file_path,
             match (content ← read file_path;
                    clean_xml_content (PyStr content)) with
             | Ok cleaned_content =>
                 [record_of (stem file_path) cleaned_content]
             | Raise _ => []
             end) (xml_files ++ txt_files)
    ∧ length records ≤ length xml_files + length txt_files.
Proof.
  unfold read_all_input_files. cbv zeta.
  destruct (print _) as [[]|e]; cbn [mbind result_bind]; [|done].
  destruct folder as [[xml_files txt_files]|]; [|done].
  destruct (xml_files ++ txt_files) as [|f input_files] eqn:Hfiles; [done|].
  rewrite <- Hfiles.
  destruct (read_input_files [] (xml_files ++ txt_files)) as [out|e]
    eqn:Hloop; cbn [mbind result_bind]; [|done].
  destruct (print _) as [[]|e]; cbn [mbind result_bind]; [|done].
  intros [= <-]. exists xml_files, txt_files.
  split; [done|]. apply read_input_files_records in Hloop as ->.
  cbn [app]. split; [done|].
  rewrite <- length_app.
  generalize (xml_files ++ txt_files). intros l.
  induction l as [|g l IH]; [done|]. cbn [flat_map].
  rewrite length_app. cbn [length].
  destruct (content ← read g; clean_xml_content (PyStr content));
    cbn [length]; lia.
Qed.
End Read_all.

Lemma read_all_input_files_raises_iff_witness :
  @read_all_input_files (escaping_library []) (py "data/input")
    (Some ([], []))
  = inl (FileNotFoundError
           (warning_sign ++ py " No .xml or .txt files found in: "
            ++ py "data/input")).
Proof.
  apply (@read_all_input_files_raises_iff (escaping_library [])).
  - intros c. reflexivity.
  - right. split; reflexivity.
Defined.

Lemma read_all_input_files_records_witness :
  @read_all_input_files (example_library []) (py "input")
    (Some ([mkInputFile (py "1.xml") (py "1") (Ok (py "<a>1</a>"));
            mkInputFile (py "2.xml") (py "2") (Ok (py "<a>\x</a>"))],
           [mkInputFile (py "1.txt") (py "1") (Ok (py "'<a>2</a>'"))]))
  = inr [record_of (py "1") (py "<a>1</a>");
         record_of (py "1") (py "<a>2</a>")].
Proof.
  destruct (@read_all_input_files_records (example_library []) (py "input")
              (Some ([mkInputFile (py "1.xml") (py "1") (Ok (py "<a>1</a>"));
                      mkInputFile (py "2.xml") (py "2")
                        (Ok (py "<a>\x</a>"))],
                     [mkInputFile (py "1.txt") (py "1")
                        (Ok (py "'<a>2</a>'"))]))
              _ eq_refl)
    as (xml_files & txt_files & [= <- <-] & _ & _).
  vm_compute. reflexivity.
Defined.

(** ** [compare_xml]: nodes that are no elements, and tails *)

(** X17: [compare_xml] raises nothing but the [AttributeError] of lines
    104-105, and only when one of the two trees holds a comment, a
    processing instruction or an entity node; on two trees that hold
    elements only it returns, and what it returns are the messages of
    the comparator on elements. *)
Theorem compare_xml_node_on_elements `{Library} :
  (∀ xml_a xml_b,
     compare_xml_node (of_element xml_a) (of_element xml_b)
     = Ok (compare_xml xml_a xml_b))
  ∧ (∀ xml_a xml_b,
       elements_only xml_a = true → elements_only xml_b = true →
       ∃ diffs, compare_xml_node xml_a xml_b = Ok diffs)
  ∧ (∀ xml_a xml_b e,
       compare_xml_node xml_a xml_b = Raise e →
       e = AttributeError no_attribute_text
       ∧ (elements_only xml_a = false ∨ elements_only xml_b = false)).
Proof.
  split; [intros a b; apply recurse_node_of_element|].
  split; [apply compare_xml_node_elements_only|].
  intros a b e Hraise. split; [by eapply compare_xml_node_raises|].
  destruct (elements_only a) eqn:Ha; [|by left].
  destruct (elements_only b) eqn:Hb; [|by right].
  destruct (compare_xml_node_elements_only a b Ha Hb) as [diffs Hok].
  congruence.
Qed.

(** X18: [compare_xml] reads of each node the tag, the text before the
    first child, the attributes and the children, never the tail: its
    result, a list of messages or an exception, is that of the two
    trees with every tail removed.  On two trees that differ in tails
    only it returns no message when it meets elements only, and raises
    otherwise.  The text before the first child is compared: where
    the trimmed texts of two elements with the same tag, not ignored,
    differ, the message is among those returned.  A record pair whose
    texts parse to two trees that differ in tails only, that meets
    elements only and whose lines can be printed gets the overview
    line [test <id> pass]. *)
Theorem tails_never_read `{Library} :
  (∀ xml_a xml_b,
     compare_xml_node xml_a xml_b
     = compare_xml_node (erase_tails_node xml_a) (erase_tails_node xml_b))
  ∧ (∀ xml_a xml_b,
       erase_tails_node xml_a = erase_tails_node xml_b →
       compare_xml_node xml_a xml_b
       = if comparable xml_a then Ok []
         else Raise (AttributeError no_attribute_text))
  ∧ (∀ tag text_a text_b attrib_a attrib_b children_a children_b
       tail_a tail_b path diffs out,
       strip_namespace tag ∉ IGNORED_TAGS →
       strip (default [] text_a) ≠ strip (default [] text_b) →
       recurse_node (ElementNode tag text_a attrib_a children_a tail_a)
                    (ElementNode tag text_b attrib_b children_b tail_b)
                    path diffs = Ok out →
       ValueMismatch (path ++ py "/" ++ strip_namespace tag)
         (strip (default [] text_a)) (strip (default [] text_b)) ∈ out)
  ∧ (∀ test_data_map r ref_entry test_entry ref_xml_str test_xml_str
       ref_xml test_xml,
       truthy (test_data_map !! ref_id_of ref_entry) = Some test_entry →
       clean_xml_string (dict_get ref_entry (py "Full MX-Message:") (PyStr []))
         = Ok ref_xml_str →
       clean_xml_string (dict_get test_entry (py "content") (PyStr []))
         = Ok test_xml_str →
       parse_xml ref_xml_str = Ok ref_xml →
       parse_xml test_xml_str = Ok test_xml →
       erase_tails_node ref_xml = erase_tails_node test_xml →
       comparable ref_xml = true →
       print (header_of ref_entry (test_title_of test_entry)) = Ok tt →
       print (pass_msg (ref_id_of ref_entry)) = Ok tt →
       process_entry test_data_map r ref_entry
       = Ok (mkReport
               (overview_results r
                ++ [py "test " ++ ref_id_of ref_entry ++ py " pass"])
               (detailed_results r
                ++ [header_of ref_entry (test_title_of test_entry);
                    pass_msg (ref_id_of ref_entry)]))).
Proof.
  split; [intros a b; symmetry; apply recurse_node_erase_tails|].
  split; [intros a b Heq; by apply recurse_node_same_but_tails|].
  split.
  - intros tg xa xb aa ab ca cb tla tlb path diffs out Hign Htext.
    rewrite recurse_node_unfold. cbv zeta.
    rewrite (bool_decide_false (tg ≠ tg)) by (intros Hne; by apply Hne).
    rewrite (bool_decide_false _ Hign), (bool_decide_true _ Htext).
    intros [more ->]%recurse_children_node_prefix_of.
    repeat case_bool_decide; rewrite <- ?app_assoc, !elem_of_app,
      list_elem_of_singleton; auto.
  - intros tdm r ref_entry test_entry s1 s2 a b Hsome Href Htest Ha Hb Heq
      Hcomparable Hheader Hpass.
    rewrite (process_entry_cleaned _ _ _ _ _ _ Hsome Href Htest Hheader).
    rewrite (parse_and_compare_parsed _ _ _ _ Ha Hb).
    unfold compare_xml_node.
    rewrite (recurse_node_same_but_tails _ _ _ _ Heq), Hcomparable.
    cbv zeta. cbn [mbind result_bind]. rewrite Hpass.
    cbn [mbind result_bind]. by rewrite <- app_assoc.
Qed.

Lemma tails_never_read_witness :
  overview_results <$>
    @process_entry (example_library example_documents)
      (build_test_data_map [test_record "7" "<Msg><Amt>10</Amt>!</Msg>"])
      (mkReport [] [])
      (reference_record 7 "<Msg><Amt>10</Amt></Msg>")
  = Ok [py "test 7 pass"].
Proof.
  rewrite (proj2 (proj2 (proj2 (@tails_never_read
                                  (example_library example_documents))))
             (build_test_data_map [test_record "7" "<Msg><Amt>10</Amt>!</Msg>"])
             (mkReport [] [])
             (reference_record 7 "<Msg><Amt>10</Amt></Msg>")
             (test_record "7" "<Msg><Amt>10</Amt>!</Msg>")
             (py "<Msg><Amt>10</Amt></Msg>") (py "<Msg><Amt>10</Amt>!</Msg>")
             (of_element (msg_amt "10"))
             (of_element
                (element "Msg" ""
                   [mkElement (py "Amt") (Some (py "10")) ∅ []
                      (Some (py "!"))]))
             ltac:(vm_compute; reflexivity) ltac:(vm_compute; reflexivity)
             ltac:(vm_compute; reflexivity) ltac:(vm_compute; reflexivity)
             ltac:(vm_compute; reflexivity) ltac:(vm_compute; reflexivity)
             ltac:(vm_compute; reflexivity) ltac:(vm_compute; reflexivity)
             ltac:(vm_compute; reflexivity)).
  reflexivity.
Defined.

(** ** Lines that cannot be printed *)

(** X19: every line of a turn of the loop is printed before it is
    appended, and the header (line 187) and the warning of a record
    without test record (line 217) are printed outside the [try]: when
    the standard output cannot write one of them, the
    [UnicodeEncodeError] leaves the loop and no line is produced for
    this record or the following ones. *)
Theorem unprintable_line `{Library} :
  (∀ test_data_map r ref_entry test_entry ref_xml_str test_xml_str
     ref_data e,
     truthy (test_data_map !! ref_id_of ref_entry) = Some test_entry →
     clean_xml_string (dict_get ref_entry (py "Full MX-Message:") (PyStr []))
       = Ok ref_xml_str →
     clean_xml_string (dict_get test_entry (py "content") (PyStr []))
       = Ok test_xml_str →
     print (header_of ref_entry (test_title_of test_entry)) = Raise e →
     process_entries test_data_map r (ref_entry :: ref_data) = Raise e)
  ∧ (∀ test_data_map r ref_entry ref_data e,
       truthy (test_data_map !! ref_id_of ref_entry) = None →
       print (warning_msg (ref_id_of ref_entry)) = Raise e →
       process_entries test_data_map r (ref_entry :: ref_data) = Raise e).
Proof.
  split.
  - intros tdm r ref_entry test_entry s1 s2 ref_data e Hsome Href Htest
      Hprint.
    cbn [process_entries]. unfold process_entry. cbv zeta.
    rewrite Hsome, Href. cbn [mbind result_bind]. rewrite Htest.
    cbn [mbind result_bind]. by rewrite Hprint.
  - intros tdm r ref_entry ref_data e Hno Hprint.
    cbn [process_entries]. unfold process_entry. cbv zeta.
    by rewrite Hno, Hprint.
Qed.

Lemma unprintable_line_witness :
  @process_comparison (example_library example_documents)
    [<[py "Name" := PyStr [0xD800%N]]>
       (reference_record 1 "<Msg><Amt>10</Amt></Msg>");
     reference_record 2 "<Msg><Amt>10</Amt></Msg>"]
    [test_record "1" "<Msg><Amt>10</Amt></Msg>";
     test_record "2" "<Msg><Amt>10</Amt></Msg>"]
  = Raise (UnicodeEncodeError (py "'utf-8' codec can't encode character")).
Proof.
  unfold process_comparison. cbv zeta.
  erewrite (proj1 (@unprintable_line (example_library example_documents)));
    [reflexivity|vm_compute; reflexivity..].
Defined.


